(** * Event detection and dispatch over telemetry tables

    A shallow embedding of [examples/example_5]: the [EventClassifier]
    detection methods ([event_classifier.py]), the rule dispatcher
    [dispatch_ship_events] ([ship_dispatcher.py]) and the thresholding step
    of [WaveletDenoiser.detect_energy_change_points]
    ([wavelet_denoiser.py]).

    Conventions of the embedding.
    - A numeric sample is an integer or the missing value [NaN]; the
      detectors only compare samples, so no rounding is involved.  A
      boolean column holds [bool]s.  Columns of strings are not part of
      the embedding: every statement about a channel is about a channel of
      numbers or booleans.
    - The energy profile of the wavelet engine and its mean and deviation
      are float64 values, computed with the kernel's binary64 arithmetic.
    - A table has the default positional index [0 .. nrows-1].
    - A raised Python exception is a value [Raise e] of [result].
    - DataFrame objects live in a store indexed by object identity, so that
      [df.copy(deep=False)] and item assignment are visible as store
      updates. *)

From stdpp Require Import gmap strings list fin_maps pretty sorting.
From Stdlib Require Import Floats ZArith Reals Lra.

Local Open Scope string_scope.
Local Open Scope Z_scope.

(** ** Cells, series and tables *)

Inductive cell :=
  | Num (x : Z)
  | Bool (b : bool)
  | NaN.

#[global] Instance cell_eq_dec : EqDecision cell.
Proof. solve_decision. Defined.

(** A pandas Series with its dtype: [float64] (missing values allowed) or
    [bool]. *)
Inductive Series :=
  | FloatSeries (xs : list (option Z))
  | BoolSeries (bs : list bool).

Definition float_cell (o : option Z) : cell :=
  match o with Some x => Num x | None => NaN end.

Definition values (s : Series) : list cell :=
  match s with
  | FloatSeries xs => float_cell <$> xs
  | BoolSeries bs => Bool <$> bs
  end.

(** [pd.api.types.is_bool_dtype] *)
Definition is_bool_dtype (s : Series) : bool :=
  match s with BoolSeries _ => true | FloatSeries _ => false end.

(** The number a cell compares as ([True] is [1], [False] is [0]); a
    missing value compares as nothing. *)
Definition cell_num (c : cell) : option Z :=
  match c with
  | Num x => Some x
  | Bool b => Some (if b then 1 else 0)
  | NaN => None
  end.

Definition notna (c : cell) : bool :=
  match c with NaN => false | _ => true end.

(** Elementwise [!=]: a missing value differs from everything, itself
    included. *)
Definition cell_ne (a b : cell) : bool :=
  match cell_num a, cell_num b with
  | Some x, Some y => negb (x =? y)
  | _, _ => true
  end.

Record Table := {
  nrows : nat;
  columns : gmap string Series;
}.

Definition well_formed (df : Table) : Prop :=
  ∀ c s, columns df !! c = Some s → length (values s) = nrows df.

Definition has_column (df : Table) (c : string) : bool :=
  bool_decide (is_Some (columns df !! c)).

(** ** Exceptions *)

Inductive exn :=
  | KeyError (key : string)
  | ValueError (msg : string)
  | IndexError (msg : string)
  | TypeError (msg : string)
  | AttributeError (name : string).

Inductive result (A : Type) :=
  | Ok (a : A)
  | Raise (e : exn).
Arguments Ok {A} a.
Arguments Raise {A} e.

Definition bind {A B} (r : result A) (k : A → result B) : result B :=
  match r with
  | Ok a => k a
  | Raise e => Raise e
  end.

Notation "'let!' x ':=' r 'in' k" := (bind r (fun x => k))
  (at level 10, x pattern, r at level 100, k at level 200).

Definition raised {A} (r : result A) : bool :=
  match r with Raise _ => true | Ok _ => false end.

(** [df[column]] *)
Definition getitem (df : Table) (c : string) : result Series :=
  match columns df !! c with
  | Some s => Ok s
  | None => Raise (KeyError c)
  end.

(** ** Signal primitives *)

(** The comparator table shared by every detector: [">"], ["<"], [">="],
    ["<="], ["=="]. *)
Definition ops (op : string) : option (Z → Z → bool) :=
  if decide (op = ">") then Some Z.gtb
  else if decide (op = "<") then Some Z.ltb
  else if decide (op = ">=") then Some Z.geb
  else if decide (op = "<=") then Some Z.leb
  else if decide (op = "==") then Some Z.eqb
  else None.

(** [series <op> threshold]: a comparison with a missing value is false. *)
Definition compare_cell (f : Z → Z → bool) (thr : Z) (c : cell) : bool :=
  match cell_num c with
  | Some x => f x thr
  | None => false
  end.

Definition compare (f : Z → Z → bool) (s : Series) (thr : Z) : list bool :=
  compare_cell f thr <$> values s.

(** [s.shift(1, fill_value=fill)] *)
Definition shift_down {A} (fill : A) (l : list A) : list A :=
  take (length l) (fill :: l).

(** [s.shift(-i, fill_value=fill)] *)
Definition shift_up {A} (i : nat) (fill : A) (l : list A) : list A :=
  drop i l ++ replicate (i `min` length l) fill.

(** [mask & ~mask.shift(1, fill_value=False)] *)
Definition rising_edge (mask : list bool) : list bool :=
  zip_with (λ m p, m && negb p) mask (shift_down false mask).

(** Row labels selected by a boolean mask: [df[mask].index] *)
Fixpoint mask_index_from (i : nat) (mask : list bool) : list nat :=
  match mask with
  | [] => []
  | b :: mask' =>
      if b then i :: mask_index_from (S i) mask'
      else mask_index_from (S i) mask'
  end.

Definition mask_index (mask : list bool) : list nat := mask_index_from 0 mask.

(** [s.loc[idx]] on a series of the table; every label selected by a mask
    of the table's length is in range. *)
Definition loc (l : list cell) (idx : nat) : cell := default NaN (l !! idx).

Record Event := {
  timestamp : cell;
  activity : string;
  value : cell;
}.

#[global] Instance Event_eq_dec : EqDecision Event.
Proof. solve_decision. Defined.

Definition TIME : string := "time.absolute".

(** *** Threshold crossing: [EventClassifier.detect_threshold_events] *)

(** The loop
    [for i in range(min_duration_rows): duration_check |= mask.shift(-i, fill_value=False)]
    started from [pd.Series(False, index=self.df.index)]. *)
Definition duration_check (n : nat) (mask : list bool) (min_duration_rows : Z)
  : list bool :=
  foldl (λ check i, zip_with orb check (shift_up i false mask))
        (replicate n false)
        (seq 0 (Z.to_nat min_duration_rows)).

Definition detect_threshold_events (df : Table) (column : string)
    (threshold : Z) (condition event_name : string) (min_duration_rows : Z)
  : result (list Event) :=
  match ops condition with
  | None => Raise (ValueError ("Unknown condition: " +:+ condition))
  | Some f =>
      let! s := getitem df column in
      let mask := compare f s threshold in
      let rising := rising_edge mask in
      let rising :=
        if 1 <? min_duration_rows
        then zip_with andb rising (duration_check (nrows df) mask min_duration_rows)
        else rising in
      let event_indices := mask_index rising in
      let! time := getitem df TIME in
      Ok ((λ idx, {| timestamp := loc (values time) idx;
                     activity := event_name;
                     value := loc (values s) idx |}) <$> event_indices)
  end.

(** *** State transition: [EventClassifier.detect_state_change_events] *)

(** [(col != col.shift(1)) & col.notna() & col.shift(1).notna()] when
    [ignore_nan], else [col != col.shift(1)]. *)
Definition changed (ignore_nan : bool) (col : list cell) : list bool :=
  let prev := shift_down NaN col in
  if ignore_nan
  then zip_with (λ c p, cell_ne c p && notna c && notna p) col prev
  else zip_with cell_ne col prev.

(** [f"{x}"] of a cell read from a boolean (or shifted boolean) series. *)
Definition str (c : cell) : string :=
  match c with
  | Bool true => "True"
  | Bool false => "False"
  | Num x => pretty x
  | NaN => "nan"
  end.

(** [f"{x:.0f}"] of a sample of a numeric column (on a string Python
    raises [ValueError]; a [Series] here holds no strings). *)
Definition fmt_0f (c : cell) : string :=
  match c with
  | Num x => pretty x
  | Bool b => if b then "1" else "0"
  | NaN => "nan"
  end.

Definition _label (event_name_prefix : string) (is_bool : bool)
    (col prev_values : list cell) (first_idx idx : nat) : string :=
  if decide (idx = first_idx) then event_name_prefix +:+ " Start"
  else
    let prev := loc prev_values idx in
    let curr := loc col idx in
    if is_bool
    then event_name_prefix +:+ " " +:+ str prev +:+ "->" +:+ str curr
    else event_name_prefix +:+ " " +:+ fmt_0f prev +:+ "->" +:+ fmt_0f curr.

Definition detect_state_change_events (df : Table) (column : string)
    (event_name_prefix : string) (ignore_nan : bool) : result (list Event) :=
  let! s := getitem df column in
  let col := values s in
  let event_indices := mask_index (changed ignore_nan col) in
  if decide (length event_indices = 0%nat) then Ok []
  else
    let prev_values := shift_down NaN col in
    let is_bool := is_bool_dtype s in
    let first_idx := 0%nat in
    let! time := getitem df TIME in
    Ok ((λ idx, {| timestamp := loc (values time) idx;
                   activity := _label event_name_prefix is_bool col prev_values first_idx idx;
                   value := loc col idx |}) <$> event_indices).

(** *** Combined condition: [EventClassifier.detect_combined_condition_events] *)

Fixpoint mapM {A B} (f : A → result B) (l : list A) : result (list B) :=
  match l with
  | [] => Ok []
  | a :: l' => let! b := f a in let! bs := mapM f l' in Ok (b :: bs)
  end.

Definition condition_mask (df : Table) (c : string * string * Z) : result (list bool) :=
  let '(col, op, thr) := c in
  match ops op with
  | None => Raise (KeyError op)
  | Some f => let! s := getitem df col in Ok (compare f s thr)
  end.

Definition detect_combined_condition_events (df : Table)
    (conditions : list (string * string * Z)) (event_name mode : string)
  : result (list Event) :=
  let! masks := mapM (condition_mask df) conditions in
  let! combined :=
    if decide (mode = "all") then
      match masks with
      | [] => Raise (IndexError "list index out of range")
      | m0 :: rest => Ok (foldl (zip_with andb) m0 rest)
      end
    else
      match masks with
      | [] => Raise (IndexError "list index out of range")
      | m0 :: rest => Ok (foldl (zip_with orb) m0 rest)
      end in
  let event_indices := mask_index (rising_edge combined) in
  let! time := getitem df TIME in
  Ok ((λ idx, {| timestamp := loc (values time) idx;
                 activity := event_name;
                 value := NaN |}) <$> event_indices).

(** ** Library functions

    [DataFrame.sort_values] (pandas) and [find_peaks] (scipy.signal) are not
    code of this repository.  They are taken with the contract their
    documentation gives: [sort_values(by)] returns the rows reordered so that
    the key column ascends, missing keys last; the algorithm is the default
    [kind="quicksort"], which the documentation does not list among the
    stable ones.  [find_peaks] returns row positions. *)

(** Ascending order of sort keys, missing keys last ([na_position="last"]). *)
Definition num_le (a b : option Z) : Prop :=
  match a, b with
  | Some x, Some y => x ≤ y
  | _, None => True
  | None, Some _ => False
  end.

Definition timestamp_le (a b : cell) : Prop := num_le (cell_num a) (cell_num b).

#[global] Instance timestamp_le_dec a b : Decision (timestamp_le a b).
Proof.
  unfold timestamp_le, num_le. destruct (cell_num a), (cell_num b); apply _.
Defined.

Class Libraries := {
  sort_values : ∀ {A : Type}, (A → cell) → list A → list A;
  sort_values_Permutation :
    ∀ {A : Type} (key : A → cell) (rows : list A), sort_values key rows ≡ₚ rows;
  sort_values_Sorted :
    ∀ {A : Type} (key : A → cell) (rows : list A),
      Sorted (λ x y, timestamp_le (key x) (key y)) (sort_values key rows);
  find_peaks : list Z → Z → Z → list nat;
}.

(** *** Local extrema: [EventClassifier.detect_local_extrema_events] *)

Definition detect_local_extrema_events `{Libraries} (df : Table)
    (column event_name_max event_name_min : string) (window_size prominence : Z)
  : result (list Event) :=
  let! s := getitem df column in
  let vals := (λ c, default 0 (cell_num c)) <$> values s in
  let peaks_max := find_peaks vals window_size prominence in
  if is_bool_dtype s
  then Raise (TypeError "The numpy boolean negative, the `-` operator, is not supported")
  else
    let peaks_min := find_peaks (Z.opp <$> vals) window_size prominence in
    let! time := getitem df TIME in
    let events_max :=
      (λ idx, {| timestamp := loc (values time) idx;
                 activity := event_name_max;
                 value := loc (values s) idx |}) <$> peaks_max in
    let events_min :=
      (λ idx, {| timestamp := loc (values time) idx;
                 activity := event_name_min;
                 value := loc (values s) idx |}) <$> peaks_min in
    Ok (sort_values timestamp (events_max ++ events_min)).

(** ** Keyword arguments and method lookup *)

(** The [args] dictionary of a rule: each recognised keyword with a value of
    its documented type, or absent; [kw_other] lists any further keys. *)
Record Kwargs := {
  kw_column : option string;
  kw_threshold : option Z;
  kw_condition : option string;
  kw_event_name : option string;
  kw_min_duration_rows : option Z;
  kw_event_name_prefix : option string;
  kw_ignore_nan : option bool;
  kw_conditions : option (list (string * string * Z));
  kw_mode : option string;
  kw_event_name_max : option string;
  kw_event_name_min : option string;
  kw_window_size : option Z;
  kw_prominence : option Z;
  kw_threshold_sigma : option Z;
  kw_other : list string;
}.

Definition no_kwargs : Kwargs :=
  {| kw_column := None; kw_threshold := None; kw_condition := None;
     kw_event_name := None; kw_min_duration_rows := None;
     kw_event_name_prefix := None; kw_ignore_nan := None;
     kw_conditions := None; kw_mode := None; kw_event_name_max := None;
     kw_event_name_min := None; kw_window_size := None;
     kw_prominence := None; kw_threshold_sigma := None; kw_other := [] |}.

Definition key_if {A} (k : string) (o : option A) : list string :=
  match o with Some _ => [k] | None => [] end.

Definition keys (kw : Kwargs) : list string :=
  key_if "column" (kw_column kw) ++ key_if "threshold" (kw_threshold kw)
  ++ key_if "condition" (kw_condition kw) ++ key_if "event_name" (kw_event_name kw)
  ++ key_if "min_duration_rows" (kw_min_duration_rows kw)
  ++ key_if "event_name_prefix" (kw_event_name_prefix kw)
  ++ key_if "ignore_nan" (kw_ignore_nan kw)
  ++ key_if "conditions" (kw_conditions kw) ++ key_if "mode" (kw_mode kw)
  ++ key_if "event_name_max" (kw_event_name_max kw)
  ++ key_if "event_name_min" (kw_event_name_min kw)
  ++ key_if "window_size" (kw_window_size kw)
  ++ key_if "prominence" (kw_prominence kw)
  ++ key_if "threshold_sigma" (kw_threshold_sigma kw)
  ++ kw_other kw.

(** [{**args, "column": temp_col}] *)
Definition with_column (kw : Kwargs) (c : string) : Kwargs :=
  {| kw_column := Some c; kw_threshold := kw_threshold kw;
     kw_condition := kw_condition kw; kw_event_name := kw_event_name kw;
     kw_min_duration_rows := kw_min_duration_rows kw;
     kw_event_name_prefix := kw_event_name_prefix kw;
     kw_ignore_nan := kw_ignore_nan kw; kw_conditions := kw_conditions kw;
     kw_mode := kw_mode kw; kw_event_name_max := kw_event_name_max kw;
     kw_event_name_min := kw_event_name_min kw;
     kw_window_size := kw_window_size kw; kw_prominence := kw_prominence kw;
     kw_threshold_sigma := kw_threshold_sigma kw; kw_other := kw_other kw |}.

(** Binding [**args] to a signature: a key that names no parameter is a
    [TypeError], and so is a parameter without default left unbound. *)
Definition accepts (params : list string) (kw : Kwargs) : result unit :=
  match filter (λ k, k ∉ params) (keys kw) with
  | k :: _ => Raise (TypeError ("got an unexpected keyword argument '" +:+ k +:+ "'"))
  | [] => Ok ()
  end.

Definition required {A} (k : string) (o : option A) : result A :=
  match o with
  | Some a => Ok a
  | None => Raise (TypeError ("missing a required argument: '" +:+ k +:+ "'"))
  end.

Definition Method : Type := Table → Kwargs → result (list Event).

Definition call_detect_threshold_events : Method := λ df kw,
  let! _ := accepts ["column"; "threshold"; "condition"; "event_name"; "min_duration_rows"] kw in
  let! column := required "column" (kw_column kw) in
  let! threshold := required "threshold" (kw_threshold kw) in
  let! condition := required "condition" (kw_condition kw) in
  let! event_name := required "event_name" (kw_event_name kw) in
  detect_threshold_events df column threshold condition event_name
    (default 1 (kw_min_duration_rows kw)).

Definition call_detect_state_change_events : Method := λ df kw,
  let! _ := accepts ["column"; "event_name_prefix"; "ignore_nan"] kw in
  let! column := required "column" (kw_column kw) in
  let! event_name_prefix := required "event_name_prefix" (kw_event_name_prefix kw) in
  detect_state_change_events df column event_name_prefix
    (default true (kw_ignore_nan kw)).

Definition call_detect_combined_condition_events : Method := λ df kw,
  let! _ := accepts ["conditions"; "event_name"; "mode"] kw in
  let! conditions := required "conditions" (kw_conditions kw) in
  let! event_name := required "event_name" (kw_event_name kw) in
  detect_combined_condition_events df conditions event_name
    (default "all" (kw_mode kw)).

(** The source's default [prominence=0.1] is only handed to [find_peaks];
    with integer samples the default is written [0]. *)
Definition call_detect_local_extrema_events `{Libraries} : Method := λ df kw,
  let! _ := accepts ["column"; "event_name_max"; "event_name_min"; "window_size"; "prominence"] kw in
  let! column := required "column" (kw_column kw) in
  let! event_name_max := required "event_name_max" (kw_event_name_max kw) in
  let! event_name_min := required "event_name_min" (kw_event_name_min kw) in
  detect_local_extrema_events df column event_name_max event_name_min
    (default 10 (kw_window_size kw)) (default 0 (kw_prominence kw)).

(** [getattr(ec, name)] for an [EventClassifier]: its four detection
    methods and its one data attribute [df], which is not callable.  The
    attributes every Python object inherits ([__init__], [__getstate__],
    ...) are left out; the statements that depend on what a rule's method
    returns are about rules that name a detection method
    ([names_event_method] below). *)
Definition ec_getattr `{Libraries} (name : string) : result Method :=
  if decide (name = "detect_threshold_events") then Ok call_detect_threshold_events
  else if decide (name = "detect_state_change_events") then Ok call_detect_state_change_events
  else if decide (name = "detect_combined_condition_events") then Ok call_detect_combined_condition_events
  else if decide (name = "detect_local_extrema_events") then Ok call_detect_local_extrema_events
  else if decide (name = "df") then Ok (λ _ _, Raise (TypeError "'DataFrame' object is not callable"))
  else Raise (AttributeError name).

(** The optional wavelet engine [wd], as the dispatcher uses it:
    [hasattr(wd, name)] and [getattr(wd, name)] called with the rule's
    arguments.  The engine is bound to its own table when it is built and
    only reads it.  A call is taken to return an event frame or to raise,
    as [detect_energy_change_points] does; the engine's other methods
    ([compute_energy], [denoise_channel], [denoise_all]) return a Series
    or a frame of channels and are not covered. *)
Record WaveletEngine := {
  wd_hasattr : string → bool;
  wd_getattr : string → Kwargs → result (list Event);
}.

(** ** The object store

    A DataFrame variable holds a reference; the store maps each live
    DataFrame object to its index length and its column bindings. *)

Abbreviation ref := positive (only parsing).
Abbreviation Store := (gmap positive Table) (only parsing).

Definition empty_table : Table := {| nrows := 0; columns := ∅ |}.

Definition deref (σ : Store) (df : ref) : Table := default empty_table (σ !! df).

(** [df.copy(deep=False)]: a new DataFrame object with the same index and
    the same column bindings. *)
Definition copy_shallow (σ : Store) (df : ref) : ref * Store :=
  let r := fresh (dom σ) in (r, <[r := deref σ df]> σ).

(** [df[c] = s]: rebinds column [c] of the object [df]. *)
Definition setitem (σ : Store) (df : ref) (c : string) (s : Series) : Store :=
  alter (λ t, {| nrows := nrows t; columns := <[c := s]> (columns t) |}) df σ.

(** ** Rule dispatcher: [dispatch_ship_events] *)

Record Entry := {
  e_subsystem : option string;
  e_derived_column : option (string * string * Z);
  e_method : option string;
  e_transition_type : option string;
  e_args : option Kwargs;
}.

(** [entry[key]] *)
Definition entry_get {A} (key : string) (field : option A) : result A :=
  match field with
  | Some a => Ok a
  | None => Raise (KeyError key)
  end.

Record Tagged := {
  event : Event;
  transition_type : string;
  subsystem : string;
}.

Inductive Warning :=
  | ColumnNotFound (cols : list string) (name : string)
  | EntryError (subsystem : string) (args : Kwargs) (exc : exn).

(** What the body of the [try] block does with one entry: [continue] after
    a warning, or reach [frames.append(events)]. *)
Inductive Step :=
  | Skip (w : Warning)
  | Append (events : list (Event * string)).

(** [events["activity"].map(tmap)] followed by
    [dropna(subset=["transition_type"])]. *)
Definition tmap (prefix : string) : gmap string string :=
  <[prefix +:+ " True->False" := "error_recovery"]>
    (<[prefix +:+ " False->True" := "error_activation"]> ∅).

Definition map_dropna (m : gmap string string) (events : list Event)
  : list (Event * string) :=
  omap (λ ev, (λ ttype, (ev, ttype)) <$> m !! activity ev) events.

Section dispatcher.
Context `{Libraries}.

Definition derived_branch (σ : Store) (df : ref) (entry : Entry)
    (derived_column : string * string * Z) : Store * result Step :=
  let '(col, op, val) := derived_column in
  if negb (has_column (deref σ df) col) then
    (σ, let! args := entry_get "args" (e_args entry) in
        Ok (Skip (ColumnNotFound [col] (default "?" (kw_event_name_prefix args)))))
  else
    match ops op with
    | None => (σ, Raise (KeyError op))
    | Some f =>
        match getitem (deref σ df) col with
        | Raise e => (σ, Raise e)
        | Ok s =>
            let derived := BoolSeries (compare f s val) in
            let '(entry_df, σ1) := copy_shallow σ df in
            match (let! args := entry_get "args" (e_args entry) in
                   let! prefix := entry_get "event_name_prefix" (kw_event_name_prefix args) in
                   Ok (args, prefix)) with
            | Raise e => (σ1, Raise e)
            | Ok (args0, prefix) =>
                let temp_col := "_derived_" +:+ prefix in
                let σ2 := setitem σ1 entry_df temp_col derived in
                (σ2,
                 let args := with_column args0 temp_col in
                 let! name := entry_get "method" (e_method entry) in
                 let! method := ec_getattr name in
                 let! events := method (deref σ2 entry_df) args in
                 Ok (Append (map_dropna (tmap prefix) events)))
            end
        end
    end.

Definition simple_branch (df : Table) (wd : option WaveletEngine)
    (entry : Entry) : result Step :=
  let! args := entry_get "args" (e_args entry) in
  let call :=
    let! name := entry_get "method" (e_method entry) in
    let! events :=
      match wd with
      | Some w =>
          if wd_hasattr w name then wd_getattr w name args
          else let! method := ec_getattr name in method df args
      | None => let! method := ec_getattr name in method df args
      end in
    let! ttype := entry_get "transition_type" (e_transition_type entry) in
    Ok (Append ((λ ev, (ev, ttype)) <$> events)) in
  match kw_conditions args with
  | Some conditions =>
      let missing := filter (λ c, ¬ has_column df c) (conditions.*1.*1) in
      match missing with
      | _ :: _ => Ok (Skip (ColumnNotFound missing (default "?" (kw_event_name args))))
      | [] => call
      end
  | None =>
      match kw_column args with
      | Some column =>
          if negb (has_column df column)
          then Ok (Skip (ColumnNotFound [column] (default "?" (kw_event_name args))))
          else call
      | None => call
      end
  end.

(** The body of the [try] block. *)
Definition try_entry (σ : Store) (df : ref) (wd : option WaveletEngine)
    (entry : Entry) : Store * result Step :=
  match e_derived_column entry with
  | Some dc => derived_branch σ df entry dc
  | None => (σ, simple_branch (deref σ df) wd entry)
  end.

Definition tag (subsystem : string) (events : list (Event * string)) : list Tagged :=
  (λ '(ev, ttype), {| event := ev; transition_type := ttype; subsystem := subsystem |}) <$> events.

Record Loop := {
  store : gmap positive Table;
  frames : list (list Tagged);
  warnings : list Warning;
}.

(** The [for entry in config] loop.  [entry["subsystem"]] is read before
    the [try] block is entered. *)
Fixpoint for_entries (df : ref) (wd : option WaveletEngine)
    (config : list Entry) (st : Loop) : Loop * result unit :=
  match config with
  | [] => (st, Ok ())
  | entry :: config' =>
      match entry_get "subsystem" (e_subsystem entry) with
      | Raise e => (st, Raise e)
      | Ok subsystem =>
          let '(σ, r) := try_entry (store st) df wd entry in
          for_entries df wd config'
            match r with
            | Ok (Skip w) =>
                {| store := σ; frames := frames st; warnings := warnings st ++ [w] |}
            | Ok (Append events) =>
                {| store := σ; frames := frames st ++ [tag subsystem events];
                   warnings := warnings st |}
            | Raise exc =>
                {| store := σ; frames := frames st;
                   warnings := warnings st
                     ++ [EntryError subsystem (default no_kwargs (e_args entry)) exc] |}
            end
      end
  end.

(** The dispatcher: the final store, the warnings issued, and either the
    returned event log or the exception that leaves the function. *)
Definition dispatch_ship_events (σ : Store) (df : ref) (config : list Entry)
    (wd : option WaveletEngine) : Loop * result (list Tagged) :=
  let '(st, r) :=
    for_entries df wd config {| store := σ; frames := []; warnings := [] |} in
  (st,
   let! _ := r in
   match frames st with
   | [] => Ok []
   | _ :: _ => Ok (sort_values (timestamp ∘ event) (concat (frames st)))
   end).

End dispatcher.

(** ** Energy change points: [WaveletDenoiser.detect_energy_change_points]

    The energy profile comes from [compute_energy], which runs the wavelet
    transform of PyWavelets; it is a parameter here, a float64 array with
    one value per row of the table.  [Series.mean], [Series.std] and the
    comparison are computed in float64 (binary64, round to nearest even),
    in the order pandas and numpy perform the operations. *)

Module WaveletDenoiser.

Record EnergyEvent := {
  timestamp : cell;
  activity : string;
  value : float;
}.

(** The eight running sums [r[0..7]] of numpy's unrolled summation loop:
    each block of eight values is added lane by lane while at least eight
    values remain; what is left is returned with the sums. *)
Fixpoint add_blocks (fuel : nat) (r xs : list float) : list float * list float :=
  match fuel with
  | O => (r, xs)
  | S fuel' =>
      if decide (8 ≤ length xs)%nat
      then add_blocks fuel' (zip_with PrimFloat.add r (take 8 xs)) (drop 8 xs)
      else (r, xs)
  end.

(** [((r[0] + r[1]) + (r[2] + r[3])) + ((r[4] + r[5]) + (r[6] + r[7]))] *)
Definition add_tree (r : list float) : float :=
  match r with
  | [r0; r1; r2; r3; r4; r5; r6; r7] =>
      PrimFloat.add
        (PrimFloat.add (PrimFloat.add r0 r1) (PrimFloat.add r2 r3))
        (PrimFloat.add (PrimFloat.add r4 r5) (PrimFloat.add r6 r7))
  | _ => nan
  end.

(** numpy's [DOUBLE_pairwise_sum], the loop behind [ndarray.sum()] on a
    contiguous float64 array: fewer than 8 values are added from left to
    right; up to 128 values are added in eight lanes, the lanes as a tree
    and the remainder from left to right; a longer array is cut in two, the
    first part a multiple of 8 long. *)
Fixpoint pairwise_sum (fuel : nat) (a : list float) : float :=
  let n := length a in
  if decide (n < 8)%nat then foldl PrimFloat.add neg_zero a
  else if decide (n ≤ 128)%nat then
    let '(r, rest) := add_blocks n (take 8 a) (drop 8 a) in
    foldl PrimFloat.add (add_tree r) rest
  else
    match fuel with
    | O => nan
    | S fuel' =>
        let n2 := (n / 2)%nat in
        let n2 := (n2 - n2 `mod` 8)%nat in
        PrimFloat.add (pairwise_sum fuel' (take n2 a))
                      (pairwise_sum fuel' (drop n2 a))
    end.

Definition sum (a : list float) : float := pairwise_sum (length a) a.

(** The number of values that are not NaN, and the values with each NaN
    replaced by [0.0] (the statistics skip missing values). *)
Definition count (xs : list float) : nat :=
  length (filter (λ x, is_nan x = false) xs).

Definition fill_zero (xs : list float) : list float :=
  (λ x, if is_nan x then zero else x) <$> xs.

Definition of_nat (n : nat) : float := of_uint63 (Uint63.of_Z (Z.of_nat n)).

(** [Series.mean()]: [values.sum() / count], NaN when nothing is present. *)
Definition mean (xs : list float) : float :=
  let n := count xs in
  if decide (n = 0)%nat then nan
  else PrimFloat.div (sum (fill_zero xs)) (of_nat n).

(** [Series.std()], the sample deviation ([ddof=1]), by the two-pass
    variance of pandas: NaN on fewer than two present values. *)
Definition std (xs : list float) : float :=
  let n := count xs in
  if decide (n ≤ 1)%nat then nan
  else
    let avg := PrimFloat.div (sum (fill_zero xs)) (of_nat n) in
    let sqr :=
      (λ x, if is_nan x then zero
            else PrimFloat.mul (PrimFloat.sub avg x) (PrimFloat.sub avg x)) <$> xs in
    PrimFloat.sqrt (PrimFloat.div (sum sqr) (of_nat (n - 1))).

(** [energy.mean() + threshold_sigma * energy.std()] *)
Definition threshold (threshold_sigma : float) (energy : list float) : float :=
  PrimFloat.add (mean energy) (PrimFloat.mul threshold_sigma (std energy)).

(** [energy > threshold]: false when either side is NaN. *)
Definition above (thr e : float) : bool := PrimFloat.ltb thr e.

Inductive Warned := ColumnNotFound (column : string).

Definition detect_energy_change_points (df : Table)
    (compute_energy : string → list float) (column event_name : string)
    (threshold_sigma : float) : list Warned * result (list EnergyEvent) :=
  if negb (has_column df column) then ([ColumnNotFound column], Ok [])
  else
    let energy := compute_energy column in
    let thr := threshold threshold_sigma energy in
    let event_indices := mask_index (rising_edge (above thr <$> energy)) in
    ([],
     let! time := getitem df TIME in
     Ok ((λ idx, {| timestamp := loc (values time) idx;
                    activity := event_name;
                    value := default zero (energy !! idx) |}) <$> event_indices)).

End WaveletDenoiser.

(** ** Windowed energy: [WaveletDenoiser.compute_energy]

    The array arithmetic of [compute_energy] after the wavelet transform.
    [n] is the number of samples and [details] the detail coefficient arrays
    [coeffs[1:]] returned by [pywt.wavedec], both parameters here, as is
    [pywt.dwt_max_level]; the arithmetic is over the real numbers. *)

Module ComputeEnergy.

Inductive failure :=
  | ZeroDivisionError
  | PadEmptyValueError.

(** [self.level or pywt.dwt_max_level(len(signal), self.wavelet)] *)
Definition resolve_level (self_level : option nat) (dwt_max_level : nat) : nat :=
  match self_level with
  | Some (S l) => S l
  | _ => dwt_max_level
  end.

(** [window or 2**level] *)
Definition resolve_window (window : option nat) (level : nat) : nat :=
  match window with
  | Some (S w) => S w
  | _ => 2 ^ level
  end.

(** [np.repeat(detail, r)] *)
Definition np_repeat (detail : list R) (r : nat) : list R :=
  detail ≫= replicate r.

(** [np.pad(a, (before, after), mode="edge")]: an empty array cannot be
    extended. *)
Definition np_pad_edge (a : list R) (before after : nat) : failure + list R :=
  match a with
  | [] => if decide (before + after = 0)%nat then inr [] else inl PadEmptyValueError
  | x :: _ =>
      inr (replicate before x ++ a ++ replicate after (default x (last a)))%list
  end.

(** [np.repeat(detail, max(1, n // len(detail)))[:n]], padded at the end
    when it is short. *)
Definition upsample (n : nat) (detail : list R) : failure + list R :=
  if decide (length detail = 0)%nat then inl ZeroDivisionError
  else
    let upsampled := take n (np_repeat detail (1 `max` (n / length detail))) in
    if decide (length upsampled < n)%nat
    then np_pad_edge upsampled 0 (n - length upsampled)
    else inr upsampled.

(** [np.cumsum] *)
Fixpoint cumsum_from (acc : R) (xs : list R) : list R :=
  match xs with
  | [] => []
  | x :: xs' => (acc + x)%R :: cumsum_from (acc + x)%R xs'
  end.

Definition cumsum (xs : list R) : list R := cumsum_from 0%R xs.

(** [cumsum = np.cumsum(np.insert(squared, 0, 0))] and
    [(cumsum[win:] - cumsum[:-win]) / win] *)
Definition windowed_mean (win : nat) (squared : list R) : list R :=
  let cs := cumsum (0%R :: squared) in
  zip_with (λ hi lo, ((hi - lo) / INR win)%R)
           (drop win cs) (take (length cs - win) cs).

(** The body of the loop over the levels, up to [energy += windowed]. *)
Definition level_energy (n win : nat) (detail : list R) : failure + list R :=
  match upsample n detail with
  | inl e => inl e
  | inr upsampled =>
      let squared := (λ x, (x * x)%R) <$> upsampled in
      let windowed := windowed_mean win squared in
      let pad := (n - length windowed)%nat in
      np_pad_edge windowed (pad / 2) (pad - pad / 2)
  end.

Fixpoint accumulate (n win : nat) (energy : list R) (details : list (list R))
  : failure + list R :=
  match details with
  | [] => inr energy
  | detail :: details' =>
      match level_energy n win detail with
      | inl e => inl e
      | inr windowed => accumulate n win (zip_with Rplus energy windowed) details'
      end
  end.

Definition compute_energy (n : nat) (details : list (list R))
    (self_level : option nat) (dwt_max_level : nat) (window : option nat)
  : failure + list R :=
  let level := resolve_level self_level dwt_max_level in
  let win := resolve_window window level in
  accumulate n win (replicate n 0%R) details.

End ComputeEnergy.

(** ** The sort behind [sort_values]

    [DataFrame.sort_values(by)] with a single key calls
    [nargsort(keys, kind="quicksort", na_position="last")] and takes the
    rows in the order of the indexer it returns.  [nargsort] sets the
    missing keys aside, calls [ndarray.argsort(kind="quicksort")] on the
    present ones and appends the positions of the missing keys.  numpy's
    quicksort on an index array ([aquicksort_] of npysort/quicksort.cpp) is
    an introsort: a range of more than 17 elements is partitioned around
    the median of its first, middle and last key, a shorter one is sorted
    by insertion, and a range popped from the stack once the depth limit
    [2 * floor(log2 n)] is used up is sorted by heapsort.  The index array
    [tosort] is a list of positions into the key array [v]; pointers into
    it are list positions.  This is the portable routine; on processors
    with AVX2 or AVX-512 recent versions of numpy sort float64 keys with a
    vectorised sorting network instead, which does not keep equal keys in
    their input order either. *)

Module Argsort.

Definition SMALL_QUICKSORT : nat := 16.

Section keys.
Context (v : list Z).

(** [*p] and [v[*p]] *)
Definition ix (tosort : list nat) (p : nat) : nat := default 0%nat (tosort !! p).

Definition key (tosort : list nat) (p : nat) : Z :=
  default 0 (v !! ix tosort p).

(** [INTP_SWAP] of [*p] and [*q] *)
Definition INTP_SWAP (tosort : list nat) (p q : nat) : list nat :=
  <[p := ix tosort q]> (<[q := ix tosort p]> tosort).

(** [if (less(v[*p], v[*q])) INTP_SWAP] of [*p] and [*q] *)
Definition swap_if_less (tosort : list nat) (p q : nat) : list nat :=
  if key tosort p <? key tosort q then INTP_SWAP tosort p q else tosort.

(** [do { ++pi; } while (less(v[*pi], vp))] *)
Fixpoint scan_up (fuel : nat) (vp : Z) (tosort : list nat) (pi : nat) : nat :=
  match fuel with
  | O => pi
  | S fuel' =>
      let pi := S pi in
      if key tosort pi <? vp then scan_up fuel' vp tosort pi else pi
  end.

(** [do { --pj; } while (less(vp, v[*pj]))] *)
Fixpoint scan_down (fuel : nat) (vp : Z) (tosort : list nat) (pj : nat) : nat :=
  match fuel with
  | O => pj
  | S fuel' =>
      let pj := pred pj in
      if vp <? key tosort pj then scan_down fuel' vp tosort pj else pj
  end.

(** The [for (;;)] loop of the partition: scan from both ends, stop when
    the pointers meet, otherwise swap and go on. *)
Fixpoint exchange (fuel : nat) (vp : Z) (tosort : list nat) (pi pj : nat)
  : list nat * nat :=
  match fuel with
  | O => (tosort, pi)
  | S fuel' =>
      let pi := scan_up (length tosort) vp tosort pi in
      let pj := scan_down (length tosort) vp tosort pj in
      if decide (pj ≤ pi)%nat then (tosort, pi)
      else exchange fuel' vp (INTP_SWAP tosort pi pj) pi pj
  end.

(** One partition of the range [pl .. pr]: median of three, the pivot
    parked at [pr - 1], the exchange loop, the pivot moved to its place
    [pi]. *)
Definition partition (tosort : list nat) (pl pr : nat) : list nat * nat :=
  let pm := (pl + (pr - pl) / 2)%nat in
  let tosort := swap_if_less tosort pm pl in
  let tosort := swap_if_less tosort pr pm in
  let tosort := swap_if_less tosort pm pl in
  let vp := key tosort pm in
  let pj := (pr - 1)%nat in
  let tosort := INTP_SWAP tosort pm pj in
  let '(tosort, pi) := exchange (length tosort) vp tosort pl pj in
  (INTP_SWAP tosort pi (pr - 1), pi).

(** [while (pj > pl && less(vp, v[*pk])) { *pj-- = *pk--; }] with
    [pk = pj - 1] *)
Fixpoint shift (fuel : nat) (vp : Z) (tosort : list nat) (pl pj : nat)
  : list nat * nat :=
  match fuel with
  | O => (tosort, pj)
  | S fuel' =>
      if decide (pl < pj)%nat then
        if vp <? key tosort (pj - 1)
        then shift fuel' vp (<[pj := ix tosort (pj - 1)]> tosort) pl (pj - 1)
        else (tosort, pj)
      else (tosort, pj)
  end.

Definition insert (pl : nat) (tosort : list nat) (pi : nat) : list nat :=
  let vi := ix tosort pi in
  let vp := default 0 (v !! vi) in
  let '(tosort, pj) := shift (length tosort) vp tosort pl pi in
  <[pj := vi]> tosort.

(** [for (pi = pl + 1; pi <= pr; ++pi)] *)
Definition insertion_sort (tosort : list nat) (pl pr : nat) : list nat :=
  foldl (insert pl) tosort (seq (S pl) (pr - pl)).

(** [aheapsort_] on the [n] elements from [pl]; [a = tosort - 1], so heap
    slot [k] is position [pl + k - 1]. *)
Definition slot (pl k : nat) : nat := (pl + k - 1)%nat.

Fixpoint sift (fuel : nat) (tosort : list nat) (pl n tmp i j : nat)
  : list nat * nat :=
  match fuel with
  | O => (tosort, i)
  | S fuel' =>
      if decide (j ≤ n)%nat then
        let j :=
          if decide (j < n)%nat
          then if key tosort (slot pl j) <? key tosort (slot pl (j + 1))
               then (j + 1)%nat else j
          else j in
        if default 0 (v !! tmp) <? key tosort (slot pl j)
        then sift fuel' (<[slot pl i := ix tosort (slot pl j)]> tosort)
               pl n tmp j (j + j)%nat
        else (tosort, i)
      else (tosort, i)
  end.

Definition aheapsort (tosort : list nat) (pl n : nat) : list nat :=
  let heap :=
    foldl (λ tosort l,
             let tmp := ix tosort (slot pl l) in
             let '(tosort, i) := sift (length tosort) tosort pl n tmp l (l + l)%nat in
             <[slot pl i := tmp]> tosort)
          tosort (reverse (seq 1 (n / 2))) in
  foldl (λ tosort n,
           let tmp := ix tosort (slot pl n) in
           let tosort := <[slot pl n := ix tosort (slot pl 1)]> tosort in
           let '(tosort, i) := sift (length tosort) tosort pl (n - 1) tmp 1 2 in
           <[slot pl i := tmp]> tosort)
        heap (reverse (seq 2 (n - 1))).

(** The outer loop with its stack of ranges.  The smaller part of a
    partition is worked on at once, the larger one is pushed with the
    decremented depth and popped later; the ranges are disjoint, so each is
    sorted here where it is pushed.  The depth is tested when a range is
    popped ([popped]), not between the partitions of the inner loop. *)
Fixpoint sort_range (fuel : nat) (popped : bool) (cdepth : Z)
    (tosort : list nat) (pl pr : nat) : list nat :=
  match fuel with
  | O => tosort
  | S fuel' =>
      if popped && (cdepth <? 0) then aheapsort tosort pl (pr - pl + 1)
      else if decide (SMALL_QUICKSORT < pr - pl)%nat then
        let '(tosort, pi) := partition tosort pl pr in
        let cdepth := cdepth - 1 in
        if decide (pi - pl < pr - pi)%nat then
          let tosort := sort_range fuel' false cdepth tosort pl (pi - 1) in
          sort_range fuel' true cdepth tosort (pi + 1) pr
        else
          let tosort := sort_range fuel' false cdepth tosort (pi + 1) pr in
          sort_range fuel' true cdepth tosort pl (pi - 1)
      else insertion_sort tosort pl pr
  end.

End keys.

(** [v.argsort(kind="quicksort")] *)
Definition argsort (v : list Z) : list nat :=
  let num := length v in
  sort_range v (S num) true (2 * Z.of_nat (Nat.log2 num)) (seq 0 num) 0 (num - 1).

End Argsort.

(** pandas' [nargsort] with [na_position="last"]. *)
Definition nargsort (items : list cell) : list nat :=
  let positions := zip (seq 0 (length items)) items in
  let non_nan_idx := fst <$> filter (λ p, notna p.2 = true) positions in
  let nan_idx := fst <$> filter (λ p, notna p.2 = false) positions in
  let non_nans := omap cell_num items in
  ((λ j, default 0%nat (non_nan_idx !! j)) <$> Argsort.argsort non_nans)
  ++ nan_idx.

(** [DataFrame.take(indexer)] *)
Definition take_rows {A} (indexer : list nat) (rows : list A) : list A :=
  omap (λ i, rows !! i) indexer.

Definition key_le {A} (key : A → cell) : relation A :=
  λ x y, timestamp_le (key x) (key y).

(** [df.sort_values(by)] with the default [kind] and [na_position]. *)
Definition quicksort_values {A} (key : A → cell) (rows : list A) : list A :=
  take_rows (nargsort (key <$> rows)) rows.

(** ** Two implementations of the library contract

    [merge_sort_library] sorts by merge sort on the key.
    [pandas_library] sorts as pandas does by default,
    [quicksort_values].  The two proof fields of the contract are met by
    testing the indexer: the rows are taken in its order when it lists
    every row once and puts the keys in ascending order (the lemmas that
    run [pandas_library] state that this is so at their input), and by
    merge sort otherwise. *)

Definition merge_sort_values {A} (key : A → cell) (rows : list A) : list A :=
  merge_sort (key_le key) rows.

Definition checked_quicksort_values {A} (key : A → cell) (rows : list A)
  : list A :=
  if decide (merge_sort Nat.le (nargsort (key <$> rows)) = seq 0 (length rows)
             ∧ Sorted (key_le key) (quicksort_values key rows))
  then quicksort_values key rows
  else merge_sort_values key rows.

Definition merge_sort_library : Libraries.
Proof.
  refine {| sort_values := @merge_sort_values; find_peaks := λ _ _ _, [] |}.
  - intros A key rows. apply merge_sort_Permutation.
  - intros A key rows. apply @Sorted_merge_sort.
    intros x y. unfold key_le, timestamp_le, num_le.
    destruct (cell_num (key x)), (cell_num (key y)); simpl; lia || tauto.
Defined.

Definition pandas_library : Libraries.
Proof.
  refine {| sort_values := @checked_quicksort_values; find_peaks := λ _ _ _, [] |}.
  - intros A key rows. unfold checked_quicksort_values.
    destruct (decide _) as [[Hperm _]|_]; [|apply merge_sort_Permutation].
    assert (nargsort (key <$> rows) ≡ₚ seq 0 (length rows)) as Hseq.
    { rewrite <- Hperm. symmetry. apply merge_sort_Permutation. }
    unfold quicksort_values, take_rows. rewrite Hseq. clear Hperm Hseq.
    assert (∀ (pre : list A),
              omap (λ i, (pre ++ rows)%list !! i) (seq (length pre) (length rows))
              = rows) as Htake.
    { induction rows as [|x rows IH]; intros pre; [done|].
      simpl. rewrite list_lookup_middle by done. simpl.
      f_equal. specialize (IH (pre ++ [x])%list).
      rewrite length_app, Nat.add_1_r, <- app_assoc in IH. exact IH. }
    by rewrite <- (Htake []) at 2.
  - intros A key rows. unfold checked_quicksort_values.
    destruct (decide _) as [[_ Hsorted]|_]; [exact Hsorted|].
    apply @Sorted_merge_sort.
    intros x y. unfold key_le, timestamp_le, num_le.
    destruct (cell_num (key x)), (cell_num (key y)); simpl; lia || tauto.
Defined.

(** ** Example tables and rules *)

Definition table (n : nat) (cols : list (string * Series)) : Table :=
  {| nrows := n; columns := list_to_map cols |}.

Definition floats (xs : list Z) : Series := FloatSeries (Some <$> xs).

(** The end-to-end scenario: [oil_psi = [30,30,30,4,4,30]] at timestamps
    [0..5]. *)
Definition oil_table : Table :=
  table 6 [(TIME, floats [0; 1; 2; 3; 4; 5]);
           ("oil_psi", floats [30; 30; 30; 4; 4; 30])].

Definition prefix_args (prefix : string) : Kwargs :=
  {| kw_column := None; kw_threshold := None; kw_condition := None;
     kw_event_name := None; kw_min_duration_rows := None;
     kw_event_name_prefix := Some prefix; kw_ignore_nan := None;
     kw_conditions := None; kw_mode := None; kw_event_name_max := None;
     kw_event_name_min := None; kw_window_size := None;
     kw_prominence := None; kw_threshold_sigma := None; kw_other := [] |}.

Definition derived_rule (subsystem : option string)
    (derived_column : string * string * Z) (prefix : string) : Entry :=
  {| e_subsystem := subsystem;
     e_derived_column := Some derived_column;
     e_method := Some "detect_state_change_events";
     e_transition_type := None;
     e_args := Some (prefix_args prefix) |}.

Definition low_oil_rule : Entry :=
  derived_rule (Some "Lubrication") ("oil_psi", "<", 5) "low_oil".

Definition caller : positive := 1%positive.
Definition oil_store : gmap positive Table := {[ caller := oil_table ]}.

Definition tagged (ts : Z) (label : string) (v : bool) (ttype subsystem : string)
  : Tagged :=
  {| event := {| timestamp := Num ts; activity := label; value := Bool v |};
     transition_type := ttype; subsystem := subsystem |}.

Definition blip_table : Table :=
  table 3 [(TIME, floats [0; 1; 2]); ("rpm", floats [0; 1; 0])].

Definition nameless_rule : Entry :=
  derived_rule None ("oil_psi", "<", 5) "low_oil".

Definition combined_args (conditions : list (string * string * Z))
    (event_name mode : string) : Kwargs :=
  {| kw_column := None; kw_threshold := None; kw_condition := None;
     kw_event_name := Some event_name; kw_min_duration_rows := None;
     kw_event_name_prefix := None; kw_ignore_nan := None;
     kw_conditions := Some conditions; kw_mode := Some mode;
     kw_event_name_max := None; kw_event_name_min := None;
     kw_window_size := None; kw_prominence := None;
     kw_threshold_sigma := None; kw_other := [] |}.

Definition combined_rule (subsystem ttype : string)
    (conditions : list (string * string * Z)) (event_name mode : string) : Entry :=
  {| e_subsystem := Some subsystem;
     e_derived_column := None;
     e_method := Some "detect_combined_condition_events";
     e_transition_type := Some ttype;
     e_args := Some (combined_args conditions event_name mode) |}.

Definition engine_rule : Entry :=
  derived_rule (Some "Engine") ("oil_psi", "<", 5) "oil_drop".

(** Eleven rows on which the oil pressure alternates, so that the
    condition [oil_psi < 5] changes at every row after the first. *)
Definition flutter_table : Table :=
  table 11 [(TIME, floats [0; 1; 2; 3; 4; 5; 6; 7; 8; 9; 10]);
            ("oil_psi", floats [30; 4; 30; 4; 30; 4; 30; 4; 30; 4; 30])].

Definition flutter_store : gmap positive Table := {[ caller := flutter_table ]}.

(** Sixty-four rows, and an energy profile that is 6329.1 (the float64
    nearest to it) at every row. *)
Definition steady_table : Table :=
  table 64 [(TIME, floats (Z.of_nat <$> seq 0 64));
            ("vibration", floats (replicate 64 7))].

Definition steady_energy : list float :=
  replicate 64 0x1.8b9199999999ap+12%float.

(** ** Notions used to state the properties *)

(** The records of [log] that share a timestamp appear in the order they
    have in [rows] (the concatenation of the rules' frames in rule order). *)
Definition tie_order_kept (rows log : list Tagged) : Prop :=
  ∀ t, filter (λ r, timestamp (event r) = t) log
       = filter (λ r, timestamp (event r) = t) rows.

(** The test [detect_state_change_events] applies to a sample [c] and its
    predecessor [p]. *)
Definition is_change (ignore_nan : bool) (c p : cell) : bool :=
  if ignore_nan then cell_ne c p && notna c && notna p else cell_ne c p.

(** The number of samples after the first that pass the test against their
    immediate predecessor.  With [ignore_nan] these are the samples that are
    present, have a present predecessor and differ from it; without, the
    samples that differ from their predecessor, a missing value differing
    from everything. *)
Fixpoint changes_after (ignore_nan : bool) (prev : cell) (col : list cell) : nat :=
  match col with
  | [] => 0
  | c :: col' =>
      ((if is_change ignore_nan c prev then 1 else 0)
       + changes_after ignore_nan c col')%nat
  end.

Definition value_changes (ignore_nan : bool) (col : list cell) : nat :=
  match col with
  | [] => 0%nat
  | c :: col' => changes_after ignore_nan c col'
  end.

(** The records of a walk along a column that compares each sample with its
    predecessor; [detect_state_change_events] computes the same list through
    masks and row labels (lemma [state_change_events_walk]). *)
Fixpoint transitions {B} (test : cell → cell → bool) (mk : nat → cell → cell → B)
    (k : nat) (prev : cell) (col : list cell) : list B :=
  match col with
  | [] => []
  | c :: col' =>
      (if test c prev then [mk k prev c] else [])
      ++ transitions test mk (S k) c col'
  end.

Definition transition_event (time : list cell) (prefix : string) (is_bool : bool)
    (k : nat) (prev curr : cell) : Event :=
  {| timestamp := loc time k;
     activity :=
       if decide (k = 0%nat) then prefix +:+ " Start"
       else if is_bool then prefix +:+ " " +:+ str prev +:+ "->" +:+ str curr
       else prefix +:+ " " +:+ fmt_0f prev +:+ "->" +:+ fmt_0f curr;
     value := curr |}.

Definition time_values (df : Table) : list cell :=
  match columns df !! TIME with
  | Some time => values time
  | None => []
  end.

(** Row [i] of a column passes the change test of
    [detect_state_change_events]: with [ignore_nan] the sample is present,
    it has a predecessor that is present, and the two differ; without, the
    row is the first one or its sample differs from the one before (a
    missing value differs from every value). *)
Definition changes_at (ignore_nan : bool) (col : list cell) (i : nat) : Prop :=
  ∃ c, col !! i = Some c ∧
    if ignore_nan
    then ∃ j p, i = S j ∧ col !! j = Some p
                ∧ c ≠ NaN ∧ p ≠ NaN ∧ cell_ne c p = true
    else i = 0%nat ∨ ∃ j p, i = S j ∧ col !! j = Some p ∧ cell_ne c p = true.

(** The record for row [i] of a column: the row's timestamp and sample,
    labelled with the sample before it and the sample itself, or "Start"
    on the first row. *)
Definition state_change_record (time col : list cell) (prefix : string)
    (is_bool : bool) (i : nat) : Event :=
  transition_event time prefix is_bool i (loc col (i - 1)) (loc col i).

(** What the dispatcher's label map does to one record of a derived-state
    rule. *)
Definition reclassify (prefix : string) (ev : Event) : option (Event * string) :=
  if decide (activity ev = prefix +:+ " False->True") then Some (ev, "error_activation")
  else if decide (activity ev = prefix +:+ " True->False") then Some (ev, "error_recovery")
  else None.

Definition count_type (ttype : string) (events : list (Event * string)) : nat :=
  length (filter (λ e, e.2 = ttype) events).

(** A record of a derived-state rule carries one of the two
    boolean-transition labels with the matching transition type. *)
Definition activation_or_recovery (prefix : string) (e : Event * string) : Prop :=
  (activity e.1 = prefix +:+ " False->True" ∧ e.2 = "error_activation")
  ∨ (activity e.1 = prefix +:+ " True->False" ∧ e.2 = "error_recovery").

Definition bit (b : bool) : Z := if b then 1 else 0.

(** The timestamp column of a detector's result. *)
Definition timestamps (r : result (list Event)) : result (list cell) :=
  let! events := r in Ok (timestamp <$> events).

(** The test of a rising edge on a sample [c] and its predecessor [p]: the
    comparison holds at [c] and not at [p]. *)
Definition is_rising (f : Z → Z → bool) (thr : Z) (c p : cell) : bool :=
  compare_cell f thr c && negb (compare_cell f thr p).

(** What the [try] block computes for one rule when the caller's table is
    [df]: the outcome of [try_entry] in a store that holds that table
    alone. *)
Definition rule_outcome `{Libraries} (df : Table) (wd : option WaveletEngine)
    (entry : Entry) : result Step :=
  (try_entry {[ caller := df ]} caller wd entry).2.

(** The dispatcher loop as a fold of per-rule outcomes: the frames
    appended, the warnings issued, and whether the loop ends or is left by
    the [KeyError] of a missing ["subsystem"]. *)
Fixpoint fold_rules `{Libraries} (df : Table) (wd : option WaveletEngine)
    (config : list Entry) : list (list Tagged) * list Warning * result unit :=
  match config with
  | [] => ([], [], Ok ())
  | entry :: config' =>
      match entry_get "subsystem" (e_subsystem entry) with
      | Raise e => ([], [], Raise e)
      | Ok subsystem =>
          let '(fs, ws, r) := fold_rules df wd config' in
          match rule_outcome df wd entry with
          | Ok (Skip w) => (fs, w :: ws, r)
          | Ok (Append events) => (tag subsystem events :: fs, ws, r)
          | Raise exc =>
              (fs, EntryError subsystem (default no_kwargs (e_args entry)) exc :: ws, r)
          end
      end
  end.

(** The methods that return an event frame: the four detectors of
    [EventClassifier] and [detect_energy_change_points] of the wavelet
    engine.  A rule of [SHIP_EVENTS] names one of them; what the other
    attributes of the two objects return ([compute_energy] a Series,
    [denoise_all] a frame of channels) is not an event frame and is not
    described by [Method] and [WaveletEngine]. *)
Definition event_methods : list string :=
  ["detect_threshold_events"; "detect_state_change_events";
   "detect_combined_condition_events"; "detect_local_extrema_events";
   "detect_energy_change_points"].

Definition names_event_method (entry : Entry) : Prop :=
  ∀ name, e_method entry = Some name → name ∈ event_methods.

(** [wd is not None and hasattr(wd, name)] *)
Definition engine_exposes (wd : option WaveletEngine) (name : string) : bool :=
  match wd with
  | Some w => wd_hasattr w name
  | None => false
  end.

(** Condition [(column, op, threshold)] holds at row [i] of the table. *)
Definition condition_holds (df : Table) (c : string * string * Z) (i : nat) : Prop :=
  ∃ f s, ops c.1.2 = Some f ∧ columns df !! c.1.1 = Some s
         ∧ compare f s c.2 !! i = Some true.

Definition unknown_channel_rule : Entry :=
  derived_rule (Some "Cooling") ("coolant_temp", ">", 100) "overheat".

(** The timestamps of the activation records of a rule's frame. *)
Definition activation_timestamps (events : list (Event * string)) : list cell :=
  (timestamp ∘ fst) <$> filter (λ e, e.2 = "error_activation") events.

(** * Properties *)

(** ** Masks and row labels *)

Lemma mask_index_from_elem k mask i :
  i ∈ mask_index_from k mask ↔ ∃ j, i = (k + j)%nat ∧ mask !! j = Some true.
Proof.
  revert k. induction mask as [|b mask IH]; intros k; simpl.
  { split; [by intros ?%elem_of_nil|by intros (j & _ & ?)]. }
  assert (i ∈ mask_index_from (S k) mask
          ↔ ∃ j, i = (k + S j)%nat ∧ mask !! j = Some true) as Hrest.
  { rewrite IH. split; intros (j & -> & Hj); exists j; (split; [lia|done]). }
  split.
  - intros Hi. destruct b.
    + apply elem_of_cons in Hi as [->|Hi].
      * exists 0%nat. split; [lia|done].
      * apply Hrest in Hi as (j & -> & Hj). by exists (S j).
    + apply Hrest in Hi as (j & -> & Hj). by exists (S j).
  - intros (j & -> & Hj). destruct j as [|j]; simpl in Hj.
    + injection Hj as ->. rewrite Nat.add_0_r. left.
    + assert (k + S j ∈ mask_index_from (S k) mask)%nat as Hin
        by (apply Hrest; by exists j).
      destruct b; [by right|done].
Qed.

(** The labels selected by a mask are the rows at which it is true, in
    ascending order. *)
Lemma mask_index_elem mask i : i ∈ mask_index mask ↔ mask !! i = Some true.
Proof.
  unfold mask_index. rewrite mask_index_from_elem.
  split; [by intros (j & -> & ?)|intros; by exists i].
Qed.

Lemma mask_index_from_sorted k mask : StronglySorted lt (mask_index_from k mask).
Proof.
  revert k. induction mask as [|b mask IH]; intros k; simpl; [constructor|].
  destruct b; [|apply IH]. constructor; [apply IH|].
  apply Forall_forall. intros i (j & -> & _)%mask_index_from_elem. lia.
Qed.

Lemma mask_index_sorted mask : StronglySorted lt (mask_index mask).
Proof. apply mask_index_from_sorted. Qed.

(** A rising edge is a row where the mask is true and which is the first
    row or follows a row where the mask is false. *)
Lemma rising_edge_lookup mask i :
  rising_edge mask !! i = Some true
  ↔ mask !! i = Some true ∧ (i = 0%nat ∨ mask !! (i - 1)%nat = Some false).
Proof.
  unfold rising_edge, shift_down. rewrite lookup_zip_with_Some. split.
  - intros (m & p & Heq & Hm & Hp). destruct m; [|done]. destruct p; [done|].
    split; [done|]. destruct i as [|i]; [by left|right].
    apply lookup_take_Some in Hp as [Hp _]. simpl in Hp.
    by replace (S i - 1)%nat with i by lia.
  - intros [Hm Hp]. exists true, false. split; [done|]. split; [done|].
    rewrite lookup_take_lt by (by eapply lookup_lt_Some).
    destruct i as [|i]; [done|]. destruct Hp as [|Hp]; [done|].
    by replace (S i - 1)%nat with i in Hp by lia.
Qed.

(** ** Combined condition *)

(** C9: called directly with an empty conditions list, the
    combined-condition primitive raises (an [IndexError] from [masks[0]])
    whatever the table, the label and the mode; it does not return an empty
    event set. *)
Theorem combined_condition_empty_conditions df event_name mode :
  detect_combined_condition_events df [] event_name mode
    = Raise (IndexError "list index out of range")
  ∧ detect_combined_condition_events df [] event_name mode ≠ Ok [].
Proof.
  unfold detect_combined_condition_events. simpl.
  case_decide; simpl; split; done.
Qed.

Lemma combined_mode_else_branch df conditions event_name mode :
  mode ≠ "all" →
  detect_combined_condition_events df conditions event_name mode
    = detect_combined_condition_events df conditions event_name "any".
Proof.
  intros Hmode. unfold detect_combined_condition_events.
  destruct (decide (mode = "all")) as [|_]; [done|].
  destruct (decide ("any" = "all")) as [|_]; [done|]. reflexivity.
Qed.

(** C7, as stated, fails: with the mode ["xor"], which is neither ["all"]
    nor ["any"], the primitive reports no error and returns the rising edge
    of the OR of the two conditions (under ["all"] the same call finds
    nothing). *)
Lemma unknown_mode_computes_silently :
  "xor" ≠ "all" ∧ "xor" ≠ "any"
  ∧ detect_combined_condition_events oil_table
        [("oil_psi", "<", 5); ("oil_psi", ">", 29)] "alarm" "xor"
      = Ok [{| timestamp := Num 0; activity := "alarm"; value := NaN |}]
  ∧ detect_combined_condition_events oil_table
        [("oil_psi", "<", 5); ("oil_psi", ">", 29)] "alarm" "all"
      = Ok [].
Proof. repeat split; done. Qed.

(** Under the dispatcher the ["xor"] rule is not skipped: its record is in
    the log and no warning is issued. *)
Example unknown_mode_dispatched `{Libraries} :
  let run := dispatch_ship_events oil_store caller
    [combined_rule "Lubrication" "error_activation"
       [("oil_psi", "<", 5); ("oil_psi", ">", 29)] "alarm" "xor"] None in
  warnings run.1 = []
  ∧ frames run.1 =
      [[{| event := {| timestamp := Num 0; activity := "alarm"; value := NaN |};
           transition_type := "error_activation"; subsystem := "Lubrication" |}]].
Proof. split; vm_compute; reflexivity. Qed.

(** ** Threshold crossing and minimum duration *)

Lemma shift_up_length {A} i (fill : A) l : length (shift_up i fill l) = length l.
Proof. unfold shift_up. rewrite length_app, length_drop, length_replicate. lia. Qed.

Lemma shift_up_0 {A} (fill : A) l : shift_up 0 fill l = l.
Proof. unfold shift_up. simpl. by rewrite drop_0, app_nil_r. Qed.

Lemma zip_with_orb_false mask :
  zip_with orb (replicate (length mask) false) mask = mask.
Proof. induction mask as [|b mask IH]; simpl; [done|]. by rewrite IH. Qed.

(** Each pass of the loop keeps the length of [duration_check] and only
    switches entries on. *)
Lemma duration_loop_grows mask (steps : list nat) (check : list bool) :
  length check = length mask →
  let check' := foldl (λ check i, zip_with orb check (shift_up i false mask))
                      check steps in
  length check' = length mask
  ∧ ∀ j, check !! j = Some true → check' !! j = Some true.
Proof.
  revert check. induction steps as [|i steps IH]; intros check Hlen; simpl.
  { done. }
  destruct (IH (zip_with orb check (shift_up i false mask))) as [Hl Hm].
  { rewrite length_zip_with, shift_up_length. lia. }
  split; [done|]. intros j Hj. apply Hm.
  rewrite lookup_zip_with, Hj. simpl.
  destruct (lookup_lt_is_Some_2 (shift_up i false mask) j) as [b ->]; [|done].
  rewrite shift_up_length, <- Hlen. by eapply lookup_lt_Some.
Qed.

Lemma duration_check_covers mask d :
  1 < d →
  length (duration_check (length mask) mask d) = length mask
  ∧ ∀ j, mask !! j = Some true →
         duration_check (length mask) mask d !! j = Some true.
Proof.
  intros Hd. unfold duration_check.
  destruct (Z.to_nat d) as [|k] eqn:Hk; [lia|]. simpl.
  rewrite shift_up_0, zip_with_orb_false.
  by apply duration_loop_grows.
Qed.

Lemma rising_edge_in_mask mask j :
  rising_edge mask !! j = Some true → mask !! j = Some true.
Proof.
  unfold rising_edge. rewrite lookup_zip_with.
  destruct (mask !! j) as [[]|]; simpl; [done| |done].
  by destruct (shift_down false mask !! j).
Qed.

Lemma rising_edge_length mask : length (rising_edge mask) = length mask.
Proof.
  unfold rising_edge, shift_down.
  rewrite length_zip_with, length_take. simpl. lia.
Qed.

(** The duration filter of the source removes nothing: the window it ORs
    starts at the edge itself. *)
Lemma duration_filter_is_identity mask d :
  1 < d →
  zip_with andb (rising_edge mask) (duration_check (length mask) mask d)
    = rising_edge mask.
Proof.
  intros Hd. destruct (duration_check_covers mask d Hd) as [Hlen Hcov].
  apply list_eq. intros j. rewrite lookup_zip_with.
  destruct (rising_edge mask !! j) as [b|] eqn:Hr; simpl; [|done].
  destruct b.
  - by rewrite (Hcov j (rising_edge_in_mask _ _ Hr)).
  - destruct (lookup_lt_is_Some_2 (duration_check (length mask) mask d) j)
      as [b ->]; [|done].
    rewrite Hlen, <- rising_edge_length. by eapply lookup_lt_Some.
Qed.

(** X2: on every well-formed table [min_duration_rows] has no effect on the
    records emitted. *)
Lemma min_duration_rows_ignored df column threshold condition event_name d :
  well_formed df →
  detect_threshold_events df column threshold condition event_name d
    = detect_threshold_events df column threshold condition event_name 1.
Proof.
  intros Hwf. unfold detect_threshold_events.
  destruct (ops condition) as [f|]; [|done].
  unfold getitem at 1 3.
  destruct (columns df !! column) as [s|] eqn:Hs; simpl; [|done].
  destruct (1 <? d) eqn:Hd; [|done].
  apply Z.ltb_lt in Hd.
  replace (nrows df) with (length (compare f s threshold)).
  - by rewrite duration_filter_is_identity.
  - unfold compare. rewrite length_fmap. by eapply Hwf.
Qed.

(** C2, evaluated on the code: channel [rpm = [0,1,0]], condition [> 0],
    [min_duration_rows = 2].  The rising edge at row 1 holds for one sample
    only, yet its record is emitted. *)
Theorem short_edge_is_emitted :
  detect_threshold_events blip_table "rpm" 0 ">" "over" 2
    = Ok [{| timestamp := Num 1; activity := "over"; value := Num 1 |}].
Proof. reflexivity. Qed.

(** ** The dispatcher as error boundary *)

(** C6, evaluated on the code: a rule list whose first entry has no
    ["subsystem"] field.  The [KeyError] of [entry["subsystem"]] leaves the
    dispatcher; no warning is issued and the valid second rule is never
    evaluated. *)
Theorem missing_subsystem_escapes `{Libraries} wd :
  let run := dispatch_ship_events oil_store caller [nameless_rule; low_oil_rule] wd in
  run.2 = Raise (KeyError "subsystem")
  ∧ warnings run.1 = [] ∧ frames run.1 = [].
Proof. repeat split. Qed.

Lemma for_entries_returns `{Libraries} df wd config st :
  Forall (λ entry, is_Some (e_subsystem entry)) config →
  (for_entries df wd config st).2 = Ok ().
Proof.
  intros Hall. revert st. induction Hall as [|entry config [sub Hsub] _ IH];
    intros st; simpl; [done|].
  rewrite Hsub. simpl. destruct (try_entry _ _ _ _) as [σ r]. apply IH.
Qed.

(** X6: every exception raised inside the [try] block is caught: when each
    entry has a ["subsystem"] field and the method it names, if any, is one
    that returns an event frame, the dispatcher returns a log. *)
Lemma dispatch_returns `{Libraries} σ df config wd :
  Forall (λ entry, is_Some (e_subsystem entry)) config →
  Forall names_event_method config →
  ∃ log, (dispatch_ship_events σ df config wd).2 = Ok log.
Proof.
  intros Hall _. unfold dispatch_ship_events.
  pose proof (for_entries_returns df wd config
                {| store := σ; frames := []; warnings := [] |} Hall) as Hr.
  destruct (for_entries _ _ _ _) as [st r]. simpl in *. subst r. simpl.
  destruct (frames st); eauto.
Qed.

(** ** Frame: the caller's table *)

Lemma copy_shallow_fresh (σ : gmap positive Table) df :
  σ !! (copy_shallow σ df).1 = None.
Proof. unfold copy_shallow. simpl. apply not_elem_of_dom, is_fresh. Qed.

(** Assigning a column on the copy touches the copy alone. *)
Lemma setitem_copy_preserves (σ : gmap positive Table) df c s :
  σ ⊆ setitem (copy_shallow σ df).2 (copy_shallow σ df).1 c s.
Proof.
  pose proof (copy_shallow_fresh σ df) as Hfresh.
  unfold setitem, copy_shallow in *. simpl in *.
  rewrite alter_insert_eq. by apply insert_subseteq.
Qed.

Lemma copy_shallow_preserves (σ : gmap positive Table) df :
  σ ⊆ (copy_shallow σ df).2.
Proof. apply insert_subseteq, (copy_shallow_fresh σ df). Qed.

Lemma derived_branch_preserves `{Libraries} (σ : gmap positive Table) df entry dc :
  σ ⊆ (derived_branch σ df entry dc).1.
Proof.
  unfold derived_branch. destruct dc as [[col op] val].
  destruct (negb _); [done|].
  destruct (ops op); [|done].
  destruct (getitem _ _); [|done].
  pose proof (copy_shallow_preserves σ df).
  pose proof (setitem_copy_preserves σ df) as Hset.
  destruct (copy_shallow σ df) as [entry_df σ1]. simpl in *.
  destruct (let! args := entry_get "args" (e_args entry) in _) as [[args0 prefix]|];
    simpl; [apply Hset|done].
Qed.

Lemma try_entry_preserves `{Libraries} (σ : gmap positive Table) df wd entry :
  σ ⊆ (try_entry σ df wd entry).1.
Proof.
  unfold try_entry. destruct (e_derived_column entry); simpl; [|done].
  apply derived_branch_preserves.
Qed.

Lemma for_entries_preserves `{Libraries} (σ : gmap positive Table) df wd config st :
  σ ⊆ store st → σ ⊆ store (for_entries df wd config st).1.
Proof.
  revert st. induction config as [|entry config IH]; intros st Hst; simpl; [done|].
  destruct (entry_get _ _); simpl; [|done].
  pose proof (try_entry_preserves (store st) df wd entry) as Hstep.
  destruct (try_entry _ _ _ _) as [σ' r]. simpl in Hstep.
  apply IH. destruct r as [[w|events]|exc]; simpl; by etrans.
Qed.

(** C8: dispatching leaves every DataFrame object that existed before the
    call as it was, the caller's table among them: each binding of the
    store before the call is a binding of the store after it, whether the
    dispatcher returns or raises.  The derived columns live in objects
    allocated by [copy(deep=False)] during the call. *)
Theorem dispatch_preserves_tables `{Libraries}
    (σ : gmap positive Table) df config wd :
  σ ⊆ store (dispatch_ship_events σ df config wd).1.
Proof.
  unfold dispatch_ship_events.
  pose proof (for_entries_preserves σ df wd config
                {| store := σ; frames := []; warnings := [] |}) as Hloop.
  destruct (for_entries _ _ _ _) as [st r]. simpl in *. by apply Hloop.
Qed.

(** On the scenario table: after the dispatch the caller's object is still
    [oil_table], and the derived column sits in a second object. *)
Example caller_table_after_dispatch `{Libraries} wd :
  let st := (dispatch_ship_events oil_store caller [low_oil_rule] wd).1 in
  store st !! caller = Some oil_table
  ∧ (columns <$> store st !! 2%positive) =
      Some (<["_derived_low_oil" := BoolSeries [false; false; false; true; true; false]]>
              (columns oil_table)).
Proof. split; vm_compute; reflexivity. Qed.

(** ** The merged log *)

Lemma Sorted_pair_unique {A} (R : relation A) a b l :
  ¬ R b a → l ≡ₚ [a; b] → Sorted R l → l = [a; b].
Proof.
  intros Hba Hperm Hsorted.
  assert (length l = 2%nat) as Hlen by (by rewrite Hperm).
  destruct l as [|x [|y [|z l]]]; simplify_eq/=.
  assert (x ∈ [a; b]) as Hx by (rewrite <- Hperm; constructor).
  assert (y ∈ [a; b]) as Hy by (rewrite <- Hperm; do 2 constructor).
  assert (a ∈ [x; y]) as Ha by (rewrite Hperm; constructor).
  assert (b ∈ [x; y]) as Hb by (rewrite Hperm; do 2 constructor).
  apply Sorted_inv in Hsorted as [_ Hhd]. apply HdRel_inv in Hhd.
  rewrite !elem_of_cons, !elem_of_nil in Hx, Hy, Ha, Hb.
  intuition congruence.
Qed.

(** C4: on the table [oil_psi = [30,30,30,4,4,30]] at timestamps [0..5],
    the single derived-state rule (Lubrication, [oil_psi < 5], prefix
    [low_oil]) yields a log of exactly two records: timestamp 3 tagged
    Lubrication / activation, then timestamp 5 tagged Lubrication /
    recovery; no warning is issued. *)
Theorem end_to_end_scenario `{Libraries} wd :
  let run := dispatch_ship_events oil_store caller [low_oil_rule] wd in
  run.2 = Ok [tagged 3 "low_oil False->True" true "error_activation" "Lubrication";
              tagged 5 "low_oil True->False" false "error_recovery" "Lubrication"]
  ∧ warnings run.1 = [].
Proof.
  split; [|by vm_compute].
  assert (frames (for_entries caller wd [low_oil_rule]
                    {| store := oil_store; frames := []; warnings := [] |}).1
          = [[tagged 3 "low_oil False->True" true "error_activation" "Lubrication";
              tagged 5 "low_oil True->False" false "error_recovery" "Lubrication"]]
          ∧ (for_entries caller wd [low_oil_rule]
               {| store := oil_store; frames := []; warnings := [] |}).2 = Ok ())
    as [Hframes Hr] by (split; vm_compute; reflexivity).
  unfold dispatch_ship_events.
  destruct (for_entries _ _ _ _) as [st r]. simpl in *. subst r.
  rewrite Hframes. simpl. f_equal.
  apply (Sorted_pair_unique (λ x y, timestamp_le ((timestamp ∘ event) x) ((timestamp ∘ event) y))).
  - simpl. unfold timestamp_le, num_le. simpl. lia.
  - apply sort_values_Permutation.
  - apply sort_values_Sorted.
Qed.

#[global] Instance num_le_trans : Transitive num_le.
Proof. intros [x|] [y|] [z|]; simpl; lia || tauto. Qed.

#[global] Instance num_le_antisymm : AntiSymm (=) num_le.
Proof. intros [x|] [y|]; simpl; intros; f_equal; lia || tauto. Qed.

Lemma Sorted_keys {A} (key : A → cell) rows :
  Sorted (λ x y, timestamp_le (key x) (key y)) rows →
  Sorted num_le ((cell_num ∘ key) <$> rows).
Proof. apply Sorted_fmap. done. Qed.

(** Sorting a sorted list again leaves the key column as it is. *)
Lemma resort_keeps_keys `{Libraries} {A} (key : A → cell) rows :
  Sorted (λ x y, timestamp_le (key x) (key y)) rows →
  (cell_num ∘ key) <$> sort_values key rows = (cell_num ∘ key) <$> rows.
Proof.
  intros Hsorted. apply (Sorted_unique num_le).
  - apply Sorted_keys, sort_values_Sorted.
  - by apply Sorted_keys.
  - apply fmap_Permutation, sort_values_Permutation.
Qed.

(** C1, as stated, fails: the code sorts with [sort_values("timestamp")]
    and its default algorithm, which does not keep ties in their order.
    On the alternating table the rules Lubrication and Engine each give
    ten records, at timestamps 1 to 10; the twenty keys are partitioned by
    the quicksort, and the log returned does not have the records of equal
    timestamp in rule order. *)
Lemma merge_order_not_stable :
  let run := @dispatch_ship_events pandas_library flutter_store caller
               [low_oil_rule; engine_rule] None in
  let rows := concat (frames run.1) in
  (timestamp ∘ event) <$> rows
    = Num <$> [1; 2; 3; 4; 5; 6; 7; 8; 9; 10; 1; 2; 3; 4; 5; 6; 7; 8; 9; 10]
  ∧ subsystem <$> rows
      = (replicate 10 "Lubrication" ++ replicate 10 "Engine")%list
  ∧ ∃ log, run.2 = Ok log
      ∧ log = quicksort_values (timestamp ∘ event) rows
      ∧ ¬ tie_order_kept rows log.
Proof.
  intros run rows.
  split; [vm_compute; reflexivity|]. split; [vm_compute; reflexivity|].
  eexists. split; [vm_compute; reflexivity|].
  split; [vm_compute; reflexivity|].
  intros Hkept. specialize (Hkept (Num 8)). vm_compute in Hkept. discriminate.
Qed.

(** C1, amended: the merged log is sorted ascending by timestamp (missing
    timestamps last) and is a rearrangement of the rules' records, none
    lost and none added; sorting it again by the same key leaves the
    timestamp column unchanged.  The order among records of equal timestamp
    is whatever the sort produces. *)
Theorem merged_log_sorted `{Libraries} σ df config wd log :
  (dispatch_ship_events σ df config wd).2 = Ok log →
  Sorted (λ x y, timestamp_le (timestamp (event x)) (timestamp (event y))) log
  ∧ log ≡ₚ concat (frames (dispatch_ship_events σ df config wd).1)
  ∧ (cell_num ∘ timestamp ∘ event) <$> sort_values (timestamp ∘ event) log
      = (cell_num ∘ timestamp ∘ event) <$> log.
Proof.
  unfold dispatch_ship_events.
  destruct (for_entries _ _ _ _) as [st [[]|e]]; simpl; [|done].
  intros Hlog.
  assert (Sorted (λ x y, timestamp_le ((timestamp ∘ event) x) ((timestamp ∘ event) y)) log
          ∧ log ≡ₚ concat (frames st)) as [Hsorted Hperm].
  { destruct (frames st) as [|frame rest]; simplify_eq/=.
    - split; constructor.
    - split; [apply sort_values_Sorted|apply sort_values_Permutation]. }
  split; [done|]. split; [done|].
  apply (resort_keeps_keys (timestamp ∘ event)). done.
Qed.

Lemma merged_log_sorted_witness :
  let log := [tagged 3 "low_oil False->True" true "error_activation" "Lubrication";
              tagged 5 "low_oil True->False" false "error_recovery" "Lubrication"] in
  (@dispatch_ship_events merge_sort_library oil_store caller [low_oil_rule] None).2
    = Ok log
  ∧ Sorted (λ x y, timestamp_le (timestamp (event x)) (timestamp (event y))) log.
Proof.
  split; [vm_compute; reflexivity|].
  apply (@merged_log_sorted merge_sort_library oil_store caller [low_oil_rule] None).
  vm_compute. reflexivity.
Defined.

(** ** State transitions *)

Lemma changed_zip ignore_nan col :
  changed ignore_nan col = zip_with (is_change ignore_nan) col (NaN :: col).
Proof.
  unfold changed, shift_down, is_change.
  destruct ignore_nan; by rewrite zip_with_take_r.
Qed.

(** Selecting rows by the mask and reading each row back by its label is
    the walk along the column. *)
Lemma mask_index_transitions {B} test (mk : nat → cell → cell → B)
    (G : nat → B) col k p :
  (∀ j c, col !! j = Some c →
          G (k + j)%nat = mk (k + j)%nat (default p ((p :: col) !! j)) c) →
  G <$> mask_index_from k (zip_with test col (p :: col))
    = transitions test mk k p col.
Proof.
  revert k p. induction col as [|c col IH]; intros k p HG; simpl; [done|].
  assert (G <$> mask_index_from (S k) (zip_with test col (c :: col))
          = transitions test mk (S k) c col) as Hrest.
  { apply IH. intros j c' Hj.
    specialize (HG (S j) c' Hj). simpl in HG.
    replace (S k + j)%nat with (k + S j)%nat by lia. rewrite HG.
    destruct (lookup_lt_is_Some_2 (c :: col) j) as [x ->]; [|done].
    simpl. apply lookup_lt_Some in Hj. lia. }
  specialize (HG 0%nat c eq_refl). simpl in HG.
  rewrite Nat.add_0_r in HG.
  destruct (test c p).
  - rewrite fmap_cons, HG, Hrest. reflexivity.
  - rewrite Hrest. reflexivity.
Qed.

Lemma transitions_length {B} ignore_nan (mk : nat → cell → cell → B) k p col :
  length (transitions (is_change ignore_nan) mk k p col)
    = changes_after ignore_nan p col.
Proof.
  revert k p. induction col as [|c col IH]; intros k p; simpl; [done|].
  rewrite length_app, IH. by destruct (is_change ignore_nan c p).
Qed.

Lemma state_change_events_walk df column prefix ignore_nan s :
  columns df !! column = Some s →
  let walk := transitions (is_change ignore_nan)
                (transition_event (time_values df) prefix (is_bool_dtype s))
                0 NaN (values s) in
  detect_state_change_events df column prefix ignore_nan
    = if decide (walk = []) then Ok []
      else let! time := getitem df TIME in Ok walk.
Proof.
  intros Hs walk. unfold detect_state_change_events, getitem at 1.
  rewrite Hs. simpl. rewrite changed_zip. unfold mask_index.
  assert (∀ time,
    (λ idx, {| timestamp := loc time idx;
               activity := _label prefix (is_bool_dtype s) (values s)
                             (shift_down NaN (values s)) 0 idx;
               value := loc (values s) idx |})
      <$> mask_index_from 0 (zip_with (is_change ignore_nan) (values s) (NaN :: values s))
    = transitions (is_change ignore_nan)
        (transition_event time prefix (is_bool_dtype s)) 0 NaN (values s))
    as Hwalk.
  { intros time. apply mask_index_transitions. intros j c Hj. simpl.
    unfold transition_event, _label, loc, shift_down.
    pose proof (lookup_lt_Some _ _ _ Hj) as Hlt.
    rewrite lookup_take_lt by done. rewrite Hj. simpl. reflexivity. }
  assert (length (mask_index_from 0
            (zip_with (is_change ignore_nan) (values s) (NaN :: values s)))
          = length walk) as Hlen.
  { unfold walk. rewrite <- (Hwalk (time_values df)). by rewrite length_fmap. }
  rewrite Hlen.
  destruct (decide (length walk = 0%nat)) as [H0|Hn0].
  - apply nil_length_inv in H0. by rewrite decide_True.
  - rewrite decide_False by (by intros ->).
    unfold getitem, time_values in *. unfold walk.
    destruct (columns df !! TIME) as [time|]; simpl; [|done].
    by rewrite Hwalk.
Qed.

Lemma arrow_label_not_start a b : " " +:+ a +:+ "->" +:+ b ≠ " Start".
Proof.
  destruct a as [|c1 [|c2 [|c3 [|c4 [|c5 [|c6 a]]]]]]; simpl; discriminate.
Qed.

Lemma transitions_no_start test time prefix is_bool k p col :
  (0 < k)%nat →
  Forall (λ ev, activity ev ≠ prefix +:+ " Start")
         (transitions test (transition_event time prefix is_bool) k p col).
Proof.
  revert k p. induction col as [|c col IH]; intros k p Hk; simpl; [constructor|].
  apply Forall_app. split; [|apply IH; lia].
  destruct (test c p); constructor; [|constructor]. simpl.
  rewrite decide_False by lia.
  destruct is_bool; intros Heq; apply (String.app_inj prefix) in Heq;
    by apply arrow_label_not_start in Heq.
Qed.

Lemma walk_or_empty {A} (walk : list A) :
  (if decide (walk = []) then Ok [] else Ok walk) = Ok walk.
Proof. by destruct (decide (walk = [])) as [->|]. Qed.

(** C3, as stated, fails: with [ignore_nan] left at its default the first
    sample is not emitted.  On the channel [30,30,30,4,4,30], which has two
    value changes, the call made by a rule that sets only the column and
    the prefix returns two records, not three, and none is a "Start"
    record. *)
Lemma no_start_record_by_default :
  values (floats [30; 30; 30; 4; 4; 30]) ≠ []
  ∧ value_changes true (values (floats [30; 30; 30; 4; 4; 30])) = 2%nat
  ∧ call_detect_state_change_events oil_table
        (with_column (prefix_args "oil") "oil_psi")
      = Ok [{| timestamp := Num 3; activity := "oil 30->4"; value := Num 4 |};
            {| timestamp := Num 5; activity := "oil 4->30"; value := Num 30 |}].
Proof. repeat split; done. Qed.

Lemma changed_lookup ignore_nan col i :
  changed ignore_nan col !! i = Some true ↔ changes_at ignore_nan col i.
Proof.
  rewrite changed_zip, lookup_zip_with_Some. unfold changes_at, is_change. split.
  - intros (c & p & Heq & Hc & Hp). exists c. split; [done|].
    destruct i as [|j]; simpl in Hp.
    + injection Hp as <-. destruct ignore_nan; [|by left].
      by rewrite andb_false_r in Heq.
    + destruct ignore_nan.
      * symmetry in Heq.
        apply andb_true_iff in Heq as [[Hne Hnc]%andb_true_iff Hnp].
        exists j, p. repeat split; try done; by intros ->.
      * right. by exists j, p.
  - intros (c & Hc & Hrest). destruct ignore_nan.
    + destruct Hrest as (j & p & -> & Hp & Hnc & Hnp & Hne).
      exists c, p. split; [|by split].
      rewrite Hne. by destruct c, p.
    + destruct Hrest as [->|(j & p & -> & Hp & Hne)].
      * exists c, NaN. split; [|by split].
        unfold cell_ne. simpl. by destruct (cell_num c).
      * by exists c, p.
Qed.

Lemma changed_rows_length ignore_nan col :
  length (mask_index (changed ignore_nan col)) = changes_after ignore_nan NaN col.
Proof.
  rewrite changed_zip. unfold mask_index.
  rewrite <- (transitions_length ignore_nan (λ k _ _, k) 0 NaN col).
  rewrite <- (mask_index_transitions _ _ (λ i, i)); [by rewrite length_fmap|done].
Qed.

Lemma state_change_record_label time col prefix is_bool i :
  (i < length col)%nat →
  {| timestamp := loc time i;
     activity := _label prefix is_bool col (shift_down NaN col) 0 i;
     value := loc col i |}
  = state_change_record time col prefix is_bool i.
Proof.
  intros Hi. unfold state_change_record, transition_event, _label. f_equal.
  destruct (decide (i = 0%nat)); [done|].
  assert (loc (shift_down NaN col) i = loc col (i - 1)) as ->; [|done].
  unfold loc, shift_down. rewrite lookup_take_lt by done.
  destruct i as [|j]; [done|]. simpl. by rewrite Nat.sub_0_r.
Qed.

Lemma state_change_record_not_start time col prefix is_bool i :
  i ≠ 0%nat →
  activity (state_change_record time col prefix is_bool i) ≠ prefix +:+ " Start".
Proof.
  intros Hi. unfold state_change_record, transition_event. simpl.
  rewrite decide_False by done.
  destruct is_bool; intros Heq; apply (String.app_inj prefix) in Heq;
    by apply arrow_label_not_start in Heq.
Qed.

(** On a table with its time column the detector returns, in row order,
    the record of each row selected by the change mask. *)
Lemma state_change_events_rows df column prefix ignore_nan s time :
  columns df !! column = Some s →
  columns df !! TIME = Some time →
  detect_state_change_events df column prefix ignore_nan
  = Ok (state_change_record (values time) (values s) prefix (is_bool_dtype s)
          <$> mask_index (changed ignore_nan (values s))).
Proof.
  intros Hs Ht. unfold detect_state_change_events, getitem. rewrite Hs. simpl.
  destruct (decide _) as [H0|_].
  - apply nil_length_inv in H0. by rewrite H0.
  - rewrite Ht. simpl. f_equal. apply Forall_fmap_ext_1, Forall_forall.
    intros i Hi. apply state_change_record_label.
    apply mask_index_elem, lookup_lt_Some in Hi.
    rewrite changed_zip, length_zip_with in Hi. simpl in Hi. lia.
Qed.

(** C3, amended (channels of numbers or booleans): with [ignore_nan] (the
    default) the first sample is never emitted: the records are, in row
    order, one for each row whose sample is present, has a present
    immediate predecessor and differs from it, stamped with that row's
    time and carrying that row's sample; there are [n] of them and none is
    labelled "Start".  With [ignore_nan] off, a non-empty channel yields a
    "Start" record for the first row followed, in row order, by one record
    for each later row whose sample differs from its immediate predecessor
    (a missing value differs from everything): [n' + 1] records. *)
Theorem state_change_records df column prefix s time :
  columns df !! column = Some s →
  columns df !! TIME = Some time →
  let col := values s in
  let record :=
    state_change_record (values time) col prefix (is_bool_dtype s) in
  (∃ rows,
     detect_state_change_events df column prefix true = Ok (record <$> rows)
     ∧ StronglySorted lt rows
     ∧ (∀ i, i ∈ rows ↔ changes_at true col i)
     ∧ length rows = value_changes true col
     ∧ Forall (λ ev, activity ev ≠ prefix +:+ " Start") (record <$> rows))
  ∧ (col ≠ [] →
     ∃ rows,
       detect_state_change_events df column prefix false
         = Ok (record <$> 0%nat :: rows)
       ∧ StronglySorted lt (0%nat :: rows)
       ∧ (∀ i, i ∈ 0%nat :: rows ↔ changes_at false col i)
       ∧ activity (record 0%nat) = prefix +:+ " Start"
       ∧ timestamp (record 0%nat) = loc (values time) 0
       ∧ value (record 0%nat) = loc col 0
       ∧ length rows = value_changes false col
       ∧ Forall (λ ev, activity ev ≠ prefix +:+ " Start") (record <$> rows)).
Proof.
  intros Hs Ht col record. split; [|intros Hne];
    rewrite (state_change_events_rows _ _ _ _ s time Hs Ht); fold col; fold record.
  - exists (mask_index (changed true col)).
    split; [done|]. split; [apply mask_index_sorted|].
    split; [intros i; by rewrite mask_index_elem, changed_lookup|].
    split.
    + rewrite changed_rows_length. destruct col as [|c col']; [done|].
      cbn [changes_after value_changes].
      replace (is_change true c NaN) with false
        by (unfold is_change; by rewrite andb_false_r).
      done.
    + apply Forall_fmap, Forall_forall. intros i Hi.
      apply mask_index_elem, changed_lookup in Hi
        as (c & _ & j & p & -> & _).
      by apply state_change_record_not_start.
  - destruct col as [|c col'] eqn:Hcol; [done|].
    pose proof (changed_rows_length false (c :: col')) as Hlen.
    pose proof (mask_index_sorted (changed false (c :: col'))) as Hsorted.
    assert (∀ i, i ∈ mask_index (changed false (c :: col'))
                 ↔ changes_at false (c :: col') i) as Hrows
      by (intros i; by rewrite mask_index_elem, changed_lookup).
    revert Hlen Hsorted Hrows. rewrite changed_zip. unfold mask_index.
    cbn [zip_with mask_index_from changes_after].
    replace (is_change false c NaN) with true
      by (unfold is_change, cell_ne; simpl; by destruct (cell_num c)).
    set (rows := mask_index_from 1 _). intros Hlen Hsorted Hrows.
    exists rows. split; [done|]. split; [done|]. split; [done|].
    split; [done|]. split; [done|]. split; [done|].
    split; [simpl in Hlen; simpl; lia|].
    apply Forall_fmap, Forall_forall. intros i Hi.
    apply mask_index_from_elem in Hi as (j & -> & _).
    by apply state_change_record_not_start.
Qed.

Lemma state_change_records_witness :
  let record :=
    state_change_record (values (floats [0; 1; 2; 3; 4; 5]))
      (values (floats [30; 30; 30; 4; 4; 30])) "oil" false in
  columns oil_table !! "oil_psi" = Some (floats [30; 30; 30; 4; 4; 30])
  ∧ columns oil_table !! TIME = Some (floats [0; 1; 2; 3; 4; 5])
  ∧ ∃ rows,
      detect_state_change_events oil_table "oil_psi" "oil" true
        = Ok (record <$> rows)
      ∧ length rows = 2%nat.
Proof.
  intros record. split; [reflexivity|]. split; [reflexivity|].
  destruct (state_change_records oil_table "oil_psi" "oil"
              (floats [30; 30; 30; 4; 4; 30]) (floats [0; 1; 2; 3; 4; 5])
              eq_refl eq_refl) as [(rows & Hrows & _ & _ & Hlen & _) _].
  exists rows. split; [exact Hrows|exact Hlen].
Defined.

(** ** Derived-state rules *)

Lemma tmap_keys_differ prefix : prefix +:+ " True->False" ≠ prefix +:+ " False->True".
Proof. intros Heq. by apply (String.app_inj prefix) in Heq. Qed.

(** The label map sends the two boolean-transition labels to activation and
    recovery and drops every record with another label. *)
Lemma map_dropna_reclassify prefix raw :
  map_dropna (tmap prefix) raw = omap (reclassify prefix) raw.
Proof.
  pose proof (tmap_keys_differ prefix) as Hne.
  unfold map_dropna. induction raw as [|ev raw IH]; [done|].
  cbn [omap list_omap]. rewrite <- IH.
  assert ((λ ttype, (ev, ttype)) <$> tmap prefix !! activity ev
          = reclassify prefix ev) as ->; [|done].
  unfold reclassify, tmap.
  destruct (decide (activity ev = prefix +:+ " False->True")) as [->|H1].
  { by rewrite lookup_insert_ne, lookup_insert_eq. }
  destruct (decide (activity ev = prefix +:+ " True->False")) as [->|H2].
  { by rewrite lookup_insert_eq. }
  by rewrite !lookup_insert_ne, lookup_empty.
Qed.

Lemma prefix_key_in_keys kw p :
  kw_event_name_prefix kw = Some p → "event_name_prefix" ∈ keys kw.
Proof.
  intros Hp. unfold keys. rewrite Hp. simpl.
  do 5 (apply elem_of_app; right). constructor.
Qed.

(** A method without an [event_name_prefix] parameter rejects the arguments
    of a derived-state rule. *)
Lemma accepts_rejects_prefix params kw p :
  kw_event_name_prefix kw = Some p →
  "event_name_prefix" ∉ params →
  ∃ e, accepts params kw = Raise e.
Proof.
  intros Hp Hnot. unfold accepts.
  destruct (filter _ (keys kw)) as [|k rest] eqn:Hf; [|eauto].
  exfalso. apply (elem_of_nil "event_name_prefix"). rewrite <- Hf.
  apply list_elem_of_filter. split; [done|]. by eapply prefix_key_in_keys.
Qed.

Lemma deref_setitem_copy (σ : gmap positive Table) df c s :
  deref (setitem (copy_shallow σ df).2 (copy_shallow σ df).1 c s)
        (copy_shallow σ df).1
    = {| nrows := nrows (deref σ df); columns := <[c := s]> (columns (deref σ df)) |}.
Proof.
  unfold setitem, copy_shallow, deref at 1. simpl.
  by rewrite alter_insert_eq, lookup_insert_eq.
Qed.

Lemma reclassify_start time prefix is_bool p c :
  reclassify prefix (transition_event time prefix is_bool 0 p c) = None.
Proof.
  unfold reclassify. simpl.
  rewrite !decide_False; [done| |];
    intros Heq; by apply (String.app_inj prefix) in Heq.
Qed.

Lemma reclassify_bool_transition time prefix k b c :
  (0 < k)%nat → b ≠ c →
  reclassify prefix (transition_event time prefix true k (Bool b) (Bool c))
    = Some (transition_event time prefix true k (Bool b) (Bool c),
            if c then "error_activation" else "error_recovery").
Proof.
  intros Hk Hbc. unfold reclassify. simpl. rewrite (decide_False (P := k = 0%nat)) by lia.
  destruct b, c; try done; simpl.
  - rewrite decide_False by apply tmap_keys_differ. by rewrite decide_True.
  - by rewrite decide_True.
Qed.

Lemma count_type_app ttype l1 l2 :
  count_type ttype (l1 ++ l2) = (count_type ttype l1 + count_type ttype l2)%nat.
Proof. unfold count_type. by rewrite filter_app, length_app. Qed.

Lemma count_type_nil ttype : count_type ttype [] = 0%nat.
Proof. reflexivity. Qed.

Lemma count_type_cons ttype e l :
  count_type ttype (e :: l)
    = ((if decide (e.2 = ttype) then 1 else 0) + count_type ttype l)%nat.
Proof.
  unfold count_type. rewrite filter_cons. by destruct (decide (e.2 = ttype)).
Qed.

(** Along a boolean column the transitions alternate, so activations and
    recoveries balance up to the difference between the last and the first
    value. *)
Lemma bool_transitions_balance ignore_nan time prefix k b bs :
  (0 < k)%nat →
  let events := omap (reclassify prefix)
    (transitions (is_change ignore_nan) (transition_event time prefix true)
       k (Bool b) (Bool <$> bs)) in
  Forall (activation_or_recovery prefix) events
  ∧ Z.of_nat (count_type "error_activation" events)
      - Z.of_nat (count_type "error_recovery" events)
    = bit (default b (last bs)) - bit b.
Proof.
  revert k b. induction bs as [|c bs IH]; intros k b Hk; simpl.
  { split; [constructor|]. unfold count_type. simpl. lia. }
  destruct (IH (S k) c ltac:(lia)) as [Hall Hbal].
  rewrite omap_app, count_type_app, count_type_app, last_cons.
  set (rest := omap (reclassify prefix) (transitions _ _ (S k) _ _)) in *.
  clearbody rest.
  replace (default b (match last bs with Some y => Some y | None => Some c end))
    with (default c (last bs)) by (by destruct (last bs)).
  assert (is_change ignore_nan (Bool c) (Bool b) = negb (bool_decide (b = c))) as ->.
  { by destruct ignore_nan, b, c. }
  destruct (decide (b = c)) as [->|Hbc].
  - rewrite bool_decide_eq_true_2 by done. cbn [negb omap list_omap].
    split; [done|]. rewrite !count_type_nil. lia.
  - rewrite bool_decide_eq_false_2 by done. cbn [negb omap list_omap].
    rewrite reclassify_bool_transition by done.
    split.
    + apply Forall_app. split; [|done]. apply Forall_singleton.
      unfold activation_or_recovery. simpl. rewrite decide_False by lia.
      destruct b, c; try done; [right|left]; split; reflexivity.
    + rewrite !count_type_cons, !count_type_nil. cbn [snd].
      destruct b, c; try done; simpl in *; lia.
Qed.

Lemma bool_column_pairs ignore_nan time prefix bs :
  let events := omap (reclassify prefix)
    (transitions (is_change ignore_nan) (transition_event time prefix true)
       0 NaN (Bool <$> bs)) in
  Forall (activation_or_recovery prefix) events
  ∧ (count_type "error_activation" events
       ≤ count_type "error_recovery" events + 1)%nat
  ∧ (count_type "error_recovery" events
       ≤ count_type "error_activation" events + 1)%nat.
Proof.
  destruct bs as [|b bs]; intros events; subst events.
  { split; [constructor|]. simpl. rewrite !count_type_nil. lia. }
  rewrite fmap_cons. cbn [transitions]. rewrite omap_app.
  assert (omap (reclassify prefix)
            (if is_change ignore_nan (Bool b) NaN
             then [transition_event time prefix true 0 NaN (Bool b)] else [])
          = []) as ->.
  { destruct (is_change _ _ _); [|done].
    cbn [omap list_omap]. by rewrite reclassify_start. }
  rewrite app_nil_l.
  destruct (bool_transitions_balance ignore_nan time prefix 1 b bs ltac:(lia))
    as [Hall Hbal].
  split; [done|]. unfold bit in Hbal.
  destruct (default b (last bs)), b; lia.
Qed.

(** C5: a derived-state rule that reaches [frames.append] contributes only
    records relabelled by the map [{prefix False->True: error_activation,
    prefix True->False: error_recovery}]: the map sends the first label to
    activation, the second to recovery, and drops every record with another
    label (the "Start" record among them); each contributed record carries
    one of the two labels with the matching transition type, and the
    numbers of activation and recovery records differ by at most one. *)
Theorem derived_rule_pairs `{Libraries} σ df entry dc σ' events :
  derived_branch σ df entry dc = (σ', Ok (Append events)) →
  ∃ prefix,
    e_args entry ≫= kw_event_name_prefix = Some prefix
    ∧ (∀ raw, map_dropna (tmap prefix) raw = omap (reclassify prefix) raw)
    ∧ Forall (activation_or_recovery prefix) events
    ∧ (count_type "error_activation" events
         ≤ count_type "error_recovery" events + 1)%nat
    ∧ (count_type "error_recovery" events
         ≤ count_type "error_activation" events + 1)%nat.
Proof.
  unfold derived_branch. destruct dc as [[col op] val].
  destruct (negb _).
  { destruct (e_args entry); simpl; intros; simplify_eq. }
  destruct (ops op) as [f|]; [|intros; simplify_eq].
  destruct (getitem _ _) as [s|]; [|intros; simplify_eq].
  pose proof (deref_setitem_copy σ df) as Hderef.
  destruct (copy_shallow σ df) as [entry_df σ1]. simpl in Hderef.
  destruct (e_args entry) as [args0|]; simpl; [|intros; simplify_eq].
  destruct (kw_event_name_prefix args0) as [prefix|] eqn:Hprefix; simpl;
    [|intros; simplify_eq].
  rewrite Hderef. intros Hrun. exists prefix.
  split; [done|]. split; [apply map_dropna_reclassify|].
  destruct (e_method entry) as [name|]; simpl in Hrun; [|simplify_eq].
  set (tbl := {| nrows := _; columns := _ |}) in Hrun.
  set (args := with_column args0 _) in Hrun.
  assert (kw_event_name_prefix args = Some prefix) as Hargs by done.
  assert (∃ events0,
            call_detect_state_change_events tbl args = Ok events0
            ∧ events = map_dropna (tmap prefix) events0) as (events0 & Hcall & ->).
  { unfold ec_getattr in Hrun.
    destruct (decide (name = "detect_threshold_events")).
    { exfalso. cbn [bind] in Hrun. unfold call_detect_threshold_events in Hrun.
      destruct (accepts_rejects_prefix
                  ["column"; "threshold"; "condition"; "event_name"; "min_duration_rows"]
                  args prefix Hargs) as [exc He];
        [rewrite !elem_of_cons, elem_of_nil; intuition discriminate|].
      rewrite He in Hrun. discriminate. }
    destruct (decide (name = "detect_state_change_events")).
    { simpl in Hrun.
      destruct (call_detect_state_change_events tbl args) as [events0|];
        simpl in Hrun; [|discriminate].
      exists events0. split; [done|]. congruence. }
    destruct (decide (name = "detect_combined_condition_events")).
    { exfalso. cbn [bind] in Hrun. unfold call_detect_combined_condition_events in Hrun.
      destruct (accepts_rejects_prefix ["conditions"; "event_name"; "mode"]
                  args prefix Hargs) as [exc He];
        [rewrite !elem_of_cons, elem_of_nil; intuition discriminate|].
      rewrite He in Hrun. discriminate. }
    destruct (decide (name = "detect_local_extrema_events")).
    { exfalso. cbn [bind] in Hrun. unfold call_detect_local_extrema_events in Hrun.
      destruct (accepts_rejects_prefix
                  ["column"; "event_name_max"; "event_name_min"; "window_size"; "prominence"]
                  args prefix Hargs) as [exc He];
        [rewrite !elem_of_cons, elem_of_nil; intuition discriminate|].
      rewrite He in Hrun. discriminate. }
    destruct (decide (name = "df")); simpl in Hrun; discriminate. }
  unfold call_detect_state_change_events in Hcall.
  destruct (accepts _ args); simpl in Hcall; [|simplify_eq].
  rewrite Hprefix in Hcall. simpl in Hcall.
  rewrite (state_change_events_walk tbl _ prefix _
             (BoolSeries (compare f s val))) in Hcall
    by (subst tbl; simpl; apply lookup_insert_eq).
  rewrite map_dropna_reclassify.
  assert (events0
          = transitions (is_change (default true (kw_ignore_nan args0)))
              (transition_event (time_values tbl) prefix true)
              0 NaN (Bool <$> compare f s val)) as ->.
  { simpl in Hcall. destruct (decide _) as [Hnil|_] in Hcall.
    - rewrite Hnil. congruence.
    - destruct (getitem tbl TIME); simpl in Hcall; congruence. }
  apply bool_column_pairs.
Qed.

Lemma derived_rule_pairs_witness :
  let events :=
    [({| timestamp := Num 3; activity := "low_oil False->True"; value := Bool true |},
      "error_activation");
     ({| timestamp := Num 5; activity := "low_oil True->False"; value := Bool false |},
      "error_recovery")] in
  (@derived_branch merge_sort_library oil_store caller low_oil_rule
     ("oil_psi", "<", 5)).2 = Ok (Append events)
  ∧ Forall (activation_or_recovery "low_oil") events.
Proof.
  split; [vm_compute; reflexivity|].
  destruct (@derived_rule_pairs merge_sort_library oil_store caller low_oil_rule
              ("oil_psi", "<", 5)
              (@derived_branch merge_sort_library oil_store caller low_oil_rule
                 ("oil_psi", "<", 5)).1
              [({| timestamp := Num 3; activity := "low_oil False->True";
                   value := Bool true |}, "error_activation");
               ({| timestamp := Num 5; activity := "low_oil True->False";
                   value := Bool false |}, "error_recovery")])
    as (prefix & Hprefix & _ & Hall & _).
  - vm_compute. reflexivity.
  - simpl in Hprefix. injection Hprefix as <-. exact Hall.
Defined.

(** ** Energy change points *)

Lemma mask_index_no_true k mask :
  (∀ j, mask !! j ≠ Some true) → mask_index_from k mask = [].
Proof.
  revert k. induction mask as [|b mask IH]; intros k Hno; simpl; [done|].
  destruct b; [by destruct (Hno 0%nat)|].
  apply IH. intros j. apply (Hno (S j)).
Qed.

Lemma rising_edge_replicate n b :
  rising_edge (replicate n b)
  = match n with O => [] | S m => b :: replicate m false end.
Proof.
  destruct n as [|m]; [done|].
  unfold rising_edge, shift_down. rewrite length_replicate.
  change (take (S m) (false :: replicate (S m) b))
    with (false :: take m (replicate (S m) b)).
  rewrite take_replicate, Nat.min_l by lia.
  change (replicate (S m) b) with (b :: replicate m b).
  cbn [zip_with]. rewrite zip_with_replicate.
  by destruct b.
Qed.

Lemma mask_index_first_only b m :
  mask_index (b :: replicate m false) = if b then [0%nat] else [].
Proof.
  unfold mask_index. cbn [mask_index_from].
  rewrite (mask_index_no_true 1 (replicate m false)); [done|].
  intros j Hj. by apply lookup_replicate in Hj as [? _].
Qed.

(** A constant profile over 64 rows whose float64 mean rounds below the
    constant: the sum of eight copies of 6329.1 is 50632.799999999996, so
    the mean is 6329.0999999999995. *)
Lemma mean_of_equal_values_rounds_down :
  WaveletDenoiser.mean steady_energy = 0x1.8b91999999999p+12%float
  ∧ PrimFloat.ltb (WaveletDenoiser.mean steady_energy) 0x1.8b9199999999ap+12%float
    = true.
Proof. split; vm_compute; reflexivity. Qed.

(** C10, counterexample: the 64-row table, a profile that is 6329.1 at
    every row and [threshold_sigma = 0].  The threshold is the mean, which
    lies below the constant, so every row is above it and the first row is
    a rising edge: one event is returned. *)
Lemma constant_energy_fires_at_sigma_zero :
  has_column steady_table "vibration" = true
  ∧ steady_energy = replicate (nrows steady_table) 0x1.8b9199999999ap+12%float
  ∧ WaveletDenoiser.detect_energy_change_points steady_table (λ _, steady_energy)
      "vibration" "energy_shift" 0%float
    = ([], Ok [ {| WaveletDenoiser.timestamp := Num 0;
                   WaveletDenoiser.activity := "energy_shift";
                   WaveletDenoiser.value := 0x1.8b9199999999ap+12%float |} ]).
Proof. repeat split; vm_compute; reflexivity. Qed.

(** C10, as amended: for a channel of the table whose energy profile is the
    same value [c] at every row, energy change-point detection returns at
    most one event, and only for the first row: that event is returned
    exactly when the float64 threshold
    [mean + threshold_sigma * std] compares strictly below [c]; when the
    threshold is at least [c], or is NaN, nothing is returned. *)
Theorem constant_energy_first_row_only df compute_energy column event_name
    (threshold_sigma c : float) time :
  has_column df column = true →
  columns df !! TIME = Some time →
  compute_energy column = replicate (nrows df) c →
  WaveletDenoiser.detect_energy_change_points df compute_energy column
    event_name threshold_sigma
  = ([], Ok (if bool_decide (0 < nrows df)%nat
                && WaveletDenoiser.above
                     (WaveletDenoiser.threshold threshold_sigma
                        (replicate (nrows df) c)) c
             then [ {| WaveletDenoiser.timestamp := loc (values time) 0;
                       WaveletDenoiser.activity := event_name;
                       WaveletDenoiser.value := c |} ]
             else [])).
Proof.
  intros Hcol Htime Hconst. unfold WaveletDenoiser.detect_energy_change_points.
  rewrite Hcol, Hconst. cbn [negb]. unfold getitem. rewrite Htime. cbn [bind].
  rewrite fmap_replicate, rising_edge_replicate.
  destruct (nrows df) as [|m]; [done|].
  rewrite mask_index_first_only.
  rewrite bool_decide_eq_true_2 by lia. cbn [andb].
  destruct (WaveletDenoiser.above _ c); done.
Qed.

Lemma constant_energy_first_row_only_witness :
  WaveletDenoiser.detect_energy_change_points oil_table (λ _, replicate 6 2%float)
    "oil_psi" "energy_change" 3%float = ([], Ok []).
Proof.
  apply (constant_energy_first_row_only oil_table (λ _, replicate 6 2%float)
           "oil_psi" "energy_change" 3%float 2%float
           (floats [0; 1; 2; 3; 4; 5])); reflexivity.
Defined.

(** * Further properties of the detectors *)

(** ** Threshold crossing *)

Lemma rising_edge_walk f thr col :
  rising_edge (compare_cell f thr <$> col)
    = zip_with (is_rising f thr) col (NaN :: col).
Proof.
  unfold rising_edge, shift_down. rewrite zip_with_take_r.
  change (false :: (compare_cell f thr <$> col))
    with (compare_cell f thr <$> (NaN :: col)).
  by rewrite zip_with_fmap_l, zip_with_fmap_r.
Qed.

Lemma rising_transitions_satisfy {B} f thr (mk : nat → cell → cell → B)
    (P : B → Prop) k p col :
  (∀ k p c, compare_cell f thr c = true → P (mk k p c)) →
  Forall P (transitions (is_rising f thr) mk k p col).
Proof.
  intros HP. revert k p. induction col as [|c col IH]; intros k p; simpl;
    [constructor|].
  apply Forall_app. split; [|apply IH].
  unfold is_rising. destruct (compare_cell f thr c) eqn:Hc; simpl; [|constructor].
  destruct (negb _); repeat constructor. by apply HP.
Qed.

(** Two rising edges never sit on adjacent rows. *)
Lemma rising_transitions_sparse {B} f thr (mk : nat → cell → cell → B) k p col :
  (2 * length (transitions (is_rising f thr) mk k p col)
   ≤ length col + (if compare_cell f thr p then 0 else 1))%nat.
Proof.
  revert k p. induction col as [|c col IH]; intros k p; simpl; [lia|].
  specialize (IH (S k) c). rewrite length_app. revert IH.
  generalize (length (transitions (is_rising f thr) mk (S k) c col)).
  intros n. unfold is_rising.
  destruct (compare_cell f thr c), (compare_cell f thr p); simpl; lia.
Qed.

(** X1: on a well-formed table, every record that threshold-crossing
    detection returns carries the event name and a value that satisfies the
    comparison, and a table of [n] rows yields at most [(n+1)/2] records,
    whatever [min_duration_rows] is. *)
Theorem threshold_records_on_rising_edges df column threshold condition
    event_name d f events :
  well_formed df →
  ops condition = Some f →
  detect_threshold_events df column threshold condition event_name d = Ok events →
  Forall (λ ev, activity ev = event_name
                ∧ compare_cell f threshold (value ev) = true) events
  ∧ (2 * length events ≤ nrows df + 1)%nat.
Proof.
  intros Hwf Hop. unfold detect_threshold_events. rewrite Hop.
  unfold getitem at 1. destruct (columns df !! column) as [s|] eqn:Hs;
    simpl; [|done].
  assert (length (compare f s threshold) = nrows df) as Hlen.
  { unfold compare. rewrite length_fmap. by eapply Hwf. }
  assert ((if 1 <? d
           then zip_with andb (rising_edge (compare f s threshold))
                  (duration_check (nrows df) (compare f s threshold) d)
           else rising_edge (compare f s threshold))
          = rising_edge (compare f s threshold)) as ->.
  { destruct (1 <? d) eqn:Hd; [|done]. apply Z.ltb_lt in Hd.
    rewrite <- Hlen. by apply duration_filter_is_identity. }
  destruct (getitem df TIME) as [time|]; simpl; [|done]. intros [= <-].
  unfold compare, mask_index. rewrite rising_edge_walk.
  rewrite (mask_index_transitions (is_rising f threshold)
             (λ k _ c, {| timestamp := loc (values time) k;
                          activity := event_name; value := c |})).
  - split.
    + by apply rising_transitions_satisfy.
    + pose proof (rising_transitions_sparse f threshold
        (λ k _ c, {| timestamp := loc (values time) k;
                     activity := event_name; value := c |})
        0 NaN (values s)) as Hsparse.
      unfold compare in Hlen. rewrite length_fmap in Hlen. simpl in Hsparse. lia.
  - intros j c Hj. simpl. unfold loc. by rewrite Hj.
Qed.

Lemma oil_table_well_formed : well_formed oil_table.
Proof.
  intros c s. unfold oil_table, table. simpl.
  rewrite lookup_insert. case_decide; [by intros [= <-]|].
  rewrite lookup_insert. case_decide; [by intros [= <-]|].
  by rewrite lookup_empty.
Qed.

Lemma threshold_records_on_rising_edges_witness :
  well_formed oil_table
  ∧ ops "<" = Some Z.ltb
  ∧ detect_threshold_events oil_table "oil_psi" 5 "<" "low" 3
      = Ok [{| timestamp := Num 3; activity := "low"; value := Num 4 |}]
  ∧ (2 * length [{| timestamp := Num 3; activity := "low"; value := Num 4 |}]
     ≤ nrows oil_table + 1)%nat.
Proof.
  split; [apply oil_table_well_formed|]. split; [reflexivity|].
  split; [reflexivity|].
  apply (threshold_records_on_rising_edges oil_table "oil_psi" 5 "<" "low" 3
           Z.ltb _ oil_table_well_formed eq_refl eq_refl).
Defined.

Lemma min_duration_rows_ignored_witness :
  well_formed oil_table
  ∧ detect_threshold_events oil_table "oil_psi" 5 "<" "low" 3
    = detect_threshold_events oil_table "oil_psi" 5 "<" "low" 1.
Proof.
  split; [apply oil_table_well_formed|].
  apply (min_duration_rows_ignored oil_table "oil_psi" 5 "<" "low" 3
           oil_table_well_formed).
Defined.

(** ** State transitions and the time column *)

(** X3: state-transition detection reads the time column only when it has
    records to stamp.  On a table without a time column it returns the empty
    frame when no sample passes the change test, and raises
    [KeyError("time.absolute")] as soon as one does. *)
Theorem state_change_without_time_column df column prefix ignore_nan s :
  columns df !! column = Some s →
  columns df !! TIME = None →
  detect_state_change_events df column prefix ignore_nan
    = if decide (changes_after ignore_nan NaN (values s) = 0%nat)
      then Ok [] else Raise (KeyError TIME).
Proof.
  intros Hs Ht. rewrite (state_change_events_walk _ _ _ _ s Hs).
  pose proof (transitions_length ignore_nan
    (transition_event (time_values df) prefix (is_bool_dtype s)) 0 NaN (values s))
    as Hlen.
  destruct (transitions _ _ _ _ _) as [|ev walk]; simpl in Hlen.
  - rewrite decide_True by done. by rewrite decide_True.
  - rewrite decide_False by done. rewrite decide_False by lia.
    unfold getitem. by rewrite Ht.
Qed.

Lemma state_change_without_time_column_witness :
  let df := table 3 [("gear", floats [2; 2; 2])] in
  columns df !! "gear" = Some (floats [2; 2; 2])
  ∧ columns df !! TIME = None
  ∧ detect_state_change_events df "gear" "gear" true = Ok [].
Proof.
  split; [reflexivity|]. split; [reflexivity|].
  apply (state_change_without_time_column
           (table 3 [("gear", floats [2; 2; 2])]) "gear" "gear" true
           (floats [2; 2; 2]) eq_refl eq_refl).
Defined.

(** ** Combined condition *)

(** X4: with a single condition whose operator is known, combined-condition
    detection fires on the rows where threshold-crossing detection of that
    condition fires, in either mode: the two calls return the same
    timestamps, or raise the same exception when the channel or the time
    column is absent. *)
Theorem combined_single_condition_is_threshold df column op threshold
    event_name event_name' mode :
  is_Some (ops op) →
  timestamps (detect_combined_condition_events df [(column, op, threshold)]
                event_name mode)
    = timestamps (detect_threshold_events df column threshold op event_name' 1).
Proof.
  intros [f Hop]. unfold detect_combined_condition_events, detect_threshold_events.
  simpl. rewrite Hop.
  destruct (getitem df column) as [s|]; simpl; [|done].
  assert ((if decide (mode = "all")
           then Ok (compare f s threshold) else Ok (compare f s threshold))
          = Ok (compare f s threshold)) as -> by (by case_decide).
  simpl. destruct (getitem df TIME) as [time|]; simpl; [|done].
  f_equal. rewrite <- !list_fmap_compose. reflexivity.
Qed.

Lemma combined_single_condition_is_threshold_witness :
  is_Some (ops "<")
  ∧ timestamps (detect_combined_condition_events oil_table [("oil_psi", "<", 5)]
                  "low" "all") = Ok [Num 3].
Proof.
  split; [by eexists|].
  rewrite (combined_single_condition_is_threshold oil_table "oil_psi" "<" 5
             "low" "low" "all"); [reflexivity|by eexists].
Defined.

Lemma mask_index_from_true k mask i :
  i ∈ mask_index_from k mask →
  (k ≤ i)%nat ∧ mask !! (i - k)%nat = Some true.
Proof.
  revert k. induction mask as [|b mask IH]; intros k; simpl.
  { by intros ?%elem_of_nil. }
  assert (i ∈ mask_index_from (S k) mask →
          (k ≤ i)%nat ∧ (b :: mask) !! (i - k)%nat = Some true) as Hrest.
  { intros [Hle Hi]%IH. split; [lia|].
    replace (i - k)%nat with (S (i - S k)) by lia. done. }
  destruct b; [|done].
  intros [->|Hin]%elem_of_cons; [|by apply Hrest].
  split; [lia|]. by rewrite Nat.sub_diag.
Qed.

Lemma mask_index_true mask i : i ∈ mask_index mask → mask !! i = Some true.
Proof.
  intros [_ Hi]%mask_index_from_true. by rewrite Nat.sub_0_r in Hi.
Qed.

Lemma mapM_condition_mask df conditions masks :
  mapM (condition_mask df) conditions = Ok masks →
  Forall2 (λ c m, ∃ f s, ops c.1.2 = Some f ∧ columns df !! c.1.1 = Some s
                         ∧ m = compare f s c.2) conditions masks.
Proof.
  revert masks. induction conditions as [|[[col op] thr] conditions IH];
    intros masks; simpl.
  { intros [= <-]. constructor. }
  destruct (ops op) as [f|] eqn:Hop; simpl; [|done].
  unfold getitem. destruct (columns df !! col) as [s|] eqn:Hs; simpl; [|done].
  destruct (mapM (condition_mask df) conditions) as [ms|]; simpl; [|done].
  intros [= <-]. constructor; [|by apply IH]. simpl. eauto.
Qed.

Lemma foldl_and_true (m0 : list bool) rest i :
  foldl (zip_with andb) m0 rest !! i = Some true →
  Forall (λ m, m !! i = Some true) (m0 :: rest).
Proof.
  revert m0. induction rest as [|m rest IH]; intros m0; simpl.
  { intros. by repeat constructor. }
  intros Hi%IH. apply Forall_cons in Hi as [Hhead Hrest].
  rewrite lookup_zip_with in Hhead.
  destruct (m0 !! i) as [[]|] eqn:H0, (m !! i) as [[]|] eqn:H1; simplify_eq/=.
  by repeat (constructor; [done|]).
Qed.

Lemma foldl_or_true (m0 : list bool) rest i :
  foldl (zip_with orb) m0 rest !! i = Some true →
  Exists (λ m, m !! i = Some true) (m0 :: rest).
Proof.
  revert m0. induction rest as [|m rest IH]; intros m0; simpl.
  { intros. by constructor. }
  intros Hi%IH. apply Exists_cons in Hi as [Hhead|Hrest].
  - rewrite lookup_zip_with in Hhead.
    destruct (m0 !! i) as [[]|] eqn:H0, (m !! i) as [[]|] eqn:H1; simplify_eq/=.
    + by constructor.
    + by constructor.
    + constructor 2. by constructor.
  - by do 2 constructor 2.
Qed.

Lemma masks_hold_all df conditions masks i :
  Forall2 (λ c m, ∃ f s, ops c.1.2 = Some f ∧ columns df !! c.1.1 = Some s
                         ∧ m = compare f s c.2) conditions masks →
  Forall (λ m, m !! i = Some true) masks →
  Forall (λ c, condition_holds df c i) conditions.
Proof.
  induction 1 as [|c m cs ms (f & s & ? & ? & ->) _ IH]; [constructor|].
  intros [Hm Hms]%Forall_cons. constructor; [|by apply IH]. by exists f, s.
Qed.

Lemma masks_hold_some df conditions masks i :
  Forall2 (λ c m, ∃ f s, ops c.1.2 = Some f ∧ columns df !! c.1.1 = Some s
                         ∧ m = compare f s c.2) conditions masks →
  Exists (λ m, m !! i = Some true) masks →
  Exists (λ c, condition_holds df c i) conditions.
Proof.
  induction 1 as [|c m cs ms (f & s & ? & ? & ->) _ IH].
  { by intros ?%Exists_nil. }
  intros [Hm|Hms]%Exists_cons.
  - constructor. by exists f, s.
  - constructor 2. by apply IH.
Qed.

(** X5: every record of combined-condition detection sits on a row of the
    table where, in mode ["all"], every condition holds and, in any other
    mode, at least one condition holds. *)
Theorem combined_records_rows df conditions event_name mode events :
  detect_combined_condition_events df conditions event_name mode = Ok events →
  ∃ rows,
    events = (λ i, {| timestamp := loc (time_values df) i;
                      activity := event_name; value := NaN |}) <$> rows
    ∧ ∀ i, i ∈ rows →
        if decide (mode = "all")
        then Forall (λ c, condition_holds df c i) conditions
        else Exists (λ c, condition_holds df c i) conditions.
Proof.
  unfold detect_combined_condition_events.
  destruct (mapM (condition_mask df) conditions) as [masks|] eqn:Hmasks;
    simpl; [|done].
  apply mapM_condition_mask in Hmasks.
  destruct masks as [|m0 rest].
  { by case_decide. }
  set (combined := if decide (mode = "all")
                   then foldl (zip_with andb) m0 rest
                   else foldl (zip_with orb) m0 rest).
  assert ((if decide (mode = "all")
           then Ok (foldl (zip_with andb) m0 rest)
           else Ok (foldl (zip_with orb) m0 rest)) = Ok combined) as ->.
  { unfold combined. by case_decide. }
  simpl. unfold getitem, time_values.
  destruct (columns df !! TIME) as [time|]; simpl; [|done]. intros [= <-].
  eexists. split; [reflexivity|]. intros i Hi.
  apply mask_index_true, rising_edge_in_mask in Hi. unfold combined in Hi.
  destruct (decide (mode = "all")).
  - apply foldl_and_true in Hi. by eapply masks_hold_all.
  - apply foldl_or_true in Hi. by eapply masks_hold_some.
Qed.

Lemma combined_records_rows_witness :
  detect_combined_condition_events oil_table
      [("oil_psi", "<", 5); ("oil_psi", ">", 29)] "alarm" "any"
    = Ok [{| timestamp := Num 0; activity := "alarm"; value := NaN |}]
  ∧ ∃ rows : list nat, length rows = 1%nat.
Proof.
  split; [reflexivity|].
  destruct (combined_records_rows oil_table
              [("oil_psi", "<", 5); ("oil_psi", ">", 29)] "alarm" "any"
              [{| timestamp := Num 0; activity := "alarm"; value := NaN |}]
              eq_refl) as (rows & Hrows & _).
  exists rows. apply (f_equal length) in Hrows.
  rewrite length_fmap in Hrows. done.
Defined.

(** * Further properties of the dispatcher *)

(** ** The loop as a fold over the caller's table *)

Lemma has_column_empty_table c : has_column empty_table c = false.
Proof. unfold has_column, empty_table. simpl. by rewrite lookup_empty. Qed.

(** No rule changes what the caller's reference denotes. *)
Lemma try_entry_deref `{Libraries} (σ : gmap positive Table) df wd entry :
  deref (try_entry σ df wd entry).1 df = deref σ df.
Proof.
  destruct (σ !! df) as [t|] eqn:Hdf.
  - pose proof (try_entry_preserves σ df wd entry) as Hsub.
    unfold deref. rewrite Hdf. by rewrite (lookup_weaken _ _ _ _ Hdf Hsub).
  - unfold try_entry. destruct (e_derived_column entry) as [[[col op] val]|];
      simpl; [|done].
    unfold derived_branch. unfold deref at 2. rewrite Hdf. simpl.
    by rewrite has_column_empty_table.
Qed.

(** The outcome of a rule depends on the store through the caller's table
    only. *)
Lemma try_entry_outcome `{Libraries} (σ1 σ2 : gmap positive Table) df1 df2 wd entry :
  deref σ1 df1 = deref σ2 df2 →
  (try_entry σ1 df1 wd entry).2 = (try_entry σ2 df2 wd entry).2.
Proof.
  intros Heq. unfold try_entry.
  destruct (e_derived_column entry) as [[[col op] val]|]; simpl; [|by rewrite Heq].
  unfold derived_branch. rewrite Heq.
  destruct (negb _); [done|].
  destruct (ops op) as [f|]; [|done].
  destruct (getitem _ _) as [s|]; [|done].
  pose proof (deref_setitem_copy σ1 df1) as H1.
  pose proof (deref_setitem_copy σ2 df2) as H2.
  unfold copy_shallow in *. simpl in H1, H2. rewrite Heq in H1.
  destruct (let! args := entry_get "args" (e_args entry) in _)
    as [[args0 prefix]|]; simpl; [|done].
  by rewrite H1, H2.
Qed.

Lemma rule_outcome_try_entry `{Libraries} (σ : gmap positive Table) df wd entry :
  (try_entry σ df wd entry).2 = rule_outcome (deref σ df) wd entry.
Proof.
  unfold rule_outcome. apply try_entry_outcome.
  unfold deref. by rewrite lookup_singleton_eq.
Qed.

Lemma for_entries_fold `{Libraries} df wd config st :
  let run := for_entries df wd config st in
  let folded := fold_rules (deref (store st) df) wd config in
  frames run.1 = (frames st ++ folded.1.1)%list
  ∧ warnings run.1 = (warnings st ++ folded.1.2)%list
  ∧ run.2 = folded.2
  ∧ deref (store run.1) df = deref (store st) df.
Proof.
  revert st. induction config as [|entry config IH]; intros st; simpl.
  { by rewrite !app_nil_r. }
  destruct (e_subsystem entry) as [sub|]; simpl; [|by rewrite !app_nil_r].
  pose proof (rule_outcome_try_entry (store st) df wd entry) as Hout.
  pose proof (try_entry_deref (store st) df wd entry) as Hderef.
  destruct (try_entry (store st) df wd entry) as [σ' r]. simpl in Hout, Hderef.
  rewrite <- Hout.
  match goal with
  | |- context [for_entries df wd config ?st'] =>
      destruct (IH st') as (Hf & Hw & Hr & Hd)
  end.
  assert (deref σ' df = deref (store st) df →
          fold_rules (deref σ' df) wd config
          = fold_rules (deref (store st) df) wd config) as Hsame
    by (by intros ->).
  destruct (fold_rules (deref (store st) df) wd config) as [[fs ws] res] eqn:Hfold.
  destruct r as [[w|events]|exc]; simpl in *;
    rewrite Hsame in Hf, Hw, Hr by done; simpl in *;
    rewrite Hf, Hw, Hr, Hd, Hderef, <- ?app_assoc; done.
Qed.

(** The dispatcher computes the fold of the per-rule outcomes on the
    caller's table, then sorts the frames gathered. *)
Lemma dispatch_fold `{Libraries} σ df config wd :
  let run := dispatch_ship_events σ df config wd in
  let folded := fold_rules (deref σ df) wd config in
  frames run.1 = folded.1.1
  ∧ warnings run.1 = folded.1.2
  ∧ run.2 = (let! _ := folded.2 in
             match folded.1.1 with
             | [] => Ok []
             | _ :: _ => Ok (sort_values (timestamp ∘ event) (concat folded.1.1))
             end).
Proof.
  unfold dispatch_ship_events.
  pose proof (for_entries_fold df wd config
                {| store := σ; frames := []; warnings := [] |}) as Hfold.
  destruct (for_entries _ _ _ _) as [st r]. simpl in Hfold.
  destruct Hfold as (Hf & Hw & Hr & _). simpl. by rewrite Hf, Hw, Hr.
Qed.

(** ** Combine modes under the dispatcher *)

Lemma fold_rules_same_outcome `{Libraries} df wd config1 e1 e2 config2 :
  e_subsystem e1 = e_subsystem e2 →
  rule_outcome df wd e1 = rule_outcome df wd e2 →
  let f1 := fold_rules df wd (config1 ++ e1 :: config2) in
  let f2 := fold_rules df wd (config1 ++ e2 :: config2) in
  f1.1.1 = f2.1.1 ∧ length f1.1.2 = length f2.1.2 ∧ f1.2 = f2.2.
Proof.
  intros Hsub Hout. induction config1 as [|e config1 IH]; simpl.
  - rewrite Hsub. destruct (e_subsystem e2); simpl; [|done].
    destruct (fold_rules df wd config2) as [[fs ws] r].
    rewrite Hout. by destruct (rule_outcome df wd e2) as [[w|ev]|exc].
  - destruct (e_subsystem e); simpl; [|done].
    destruct (fold_rules df wd (config1 ++ e1 :: config2)) as [[fs1 ws1] r1].
    destruct (fold_rules df wd (config1 ++ e2 :: config2)) as [[fs2 ws2] r2].
    simpl in IH. destruct IH as (-> & Hlen & ->).
    destruct (rule_outcome df wd e) as [[w|ev]|exc]; simpl; by rewrite ?Hlen.
Qed.

Lemma combined_rule_outcome_any `{Libraries} df wd subsystem ttype conditions
    event_name mode :
  mode ≠ "all" →
  engine_exposes wd "detect_combined_condition_events" = false →
  rule_outcome df wd (combined_rule subsystem ttype conditions event_name mode)
  = rule_outcome df wd (combined_rule subsystem ttype conditions event_name "any").
Proof.
  intros Hmode Hwd. unfold rule_outcome, try_entry, simple_branch. simpl.
  assert (∀ m,
    match wd with
    | Some w =>
        if wd_hasattr w "detect_combined_condition_events"
        then wd_getattr w "detect_combined_condition_events"
               (combined_args conditions event_name m)
        else let! method := ec_getattr "detect_combined_condition_events" in
             method (deref {[caller := df]} caller)
               (combined_args conditions event_name m)
    | None => let! method := ec_getattr "detect_combined_condition_events" in
              method (deref {[caller := df]} caller)
                (combined_args conditions event_name m)
    end
    = detect_combined_condition_events (deref {[caller := df]} caller)
        conditions event_name m) as Hcall.
  { intros m. destruct wd as [w|]; simpl in Hwd; [rewrite Hwd|]; reflexivity. }
  rewrite !Hcall. by rewrite (combined_mode_else_branch _ _ _ mode).
Qed.

Lemma mapM_condition_mask_returns df conditions :
  Forall (λ c, is_Some (ops c.1.2) ∧ is_Some (columns df !! c.1.1)) conditions →
  ∃ masks, mapM (condition_mask df) conditions = Ok masks.
Proof.
  induction 1 as [|[[col op] thr] conditions [[f Hf] [s Hs]] _ [masks IH]]; simpl.
  { by eexists. }
  simpl in Hf, Hs. unfold getitem. rewrite Hf, Hs. simpl. rewrite IH. simpl.
  by eexists.
Qed.

Lemma conditions_hold_some df conditions masks i :
  Forall2 (λ c m, ∃ f s, ops c.1.2 = Some f ∧ columns df !! c.1.1 = Some s
                         ∧ m = compare f s c.2) conditions masks →
  Exists (λ c, condition_holds df c i) conditions →
  Exists (λ m, m !! i = Some true) masks.
Proof.
  induction 1 as [|c m cs ms (f & s & Hf & Hs & ->) _ IH].
  { by intros ?%Exists_nil. }
  intros [(f' & s' & Hf' & Hs' & Hi)|Hrest]%Exists_cons.
  - constructor. congruence.
  - constructor 2. by apply IH.
Qed.

(** On masks of one length the OR of the masks is true at a row exactly
    when one of them is, and false otherwise. *)
Lemma foldl_or_lookup n (m0 : list bool) rest i :
  Forall (λ m, length m = n) (m0 :: rest) → (i < n)%nat →
  ∃ b, foldl (zip_with orb) m0 rest !! i = Some b
       ∧ (b = true ↔ Exists (λ m, m !! i = Some true) (m0 :: rest)).
Proof.
  revert m0. induction rest as [|m rest IH]; intros m0 Hlen Hi; simpl.
  - apply Forall_cons in Hlen as [Hm0 _].
    destruct (lookup_lt_is_Some_2 m0 i) as [b Hb]; [lia|].
    exists b. split; [done|]. rewrite Exists_cons, Exists_nil. split.
    + intros ->. by left.
    + intros [Hb'|[]]. congruence.
  - apply Forall_cons in Hlen as [Hm0 [Hm Hrest]%Forall_cons].
    destruct (IH (zip_with orb m0 m)) as (b & Hb & Hiff); [|done|].
    { constructor; [|done]. rewrite length_zip_with. lia. }
    exists b. split; [done|]. rewrite Hiff, !Exists_cons.
    destruct (lookup_lt_is_Some_2 m0 i) as [b0 Hb0]; [lia|].
    destruct (lookup_lt_is_Some_2 m i) as [b1 Hb1]; [lia|].
    rewrite lookup_zip_with, Hb0, Hb1. simpl.
    destruct b0, b1; simpl; intuition congruence.
Qed.

Lemma foldl_or_length n (m0 : list bool) rest :
  Forall (λ m, length m = n) (m0 :: rest) →
  length (foldl (zip_with orb) m0 rest) = n.
Proof.
  revert m0. induction rest as [|m rest IH]; intros m0 Hlen; simpl.
  - by apply Forall_cons in Hlen as [-> _].
  - apply Forall_cons in Hlen as [Hm0 [Hm Hrest]%Forall_cons].
    apply IH. constructor; [|done]. rewrite length_zip_with. lia.
Qed.

Lemma no_missing_columns df (conditions : list (string * string * Z)) :
  Forall (λ c, is_Some (ops c.1.2) ∧ is_Some (columns df !! c.1.1)) conditions →
  filter (λ c, ¬ has_column df c) (conditions.*1.*1) = [].
Proof.
  induction 1 as [|[[col op] thr] conditions [_ Hs] _ IH]; [done|].
  simpl in Hs. cbn [fmap list_fmap fst]. rewrite filter_cons_False; [done|].
  unfold has_column. rewrite bool_decide_eq_true_2 by done. simpl. tauto.
Qed.

(** C7, amended: a combine mode other than ["all"] is given no error and is
    treated as ["any"].  The primitive returns what it returns for
    ["any"]; a rule with such a mode, anywhere in a rule list, goes through
    the dispatcher as the same rule with mode ["any"] does (same log, same
    frames, as many warnings).  On a well-formed table that has the time
    column and the channels of a non-empty list of conditions with known
    comparators, the primitive returns, in row order, one record for each
    row at which at least one condition holds and which is the first row or
    follows a row at which none holds; under the dispatcher the rule is
    not skipped and contributes exactly these records. *)
Theorem unknown_mode_is_any `{Libraries} df conditions event_name mode :
  mode ≠ "all" →
  detect_combined_condition_events df conditions event_name mode
    = detect_combined_condition_events df conditions event_name "any"
  ∧ (∀ σ r wd config1 config2 subsystem ttype,
       engine_exposes wd "detect_combined_condition_events" = false →
       let run m := dispatch_ship_events σ r
         (config1 ++ combined_rule subsystem ttype conditions event_name m
                       :: config2)%list wd in
       (run mode).2 = (run "any").2
       ∧ frames (run mode).1 = frames (run "any").1
       ∧ length (warnings (run mode).1) = length (warnings (run "any").1))
  ∧ (well_formed df → conditions ≠ [] →
     Forall (λ c, is_Some (ops c.1.2) ∧ is_Some (columns df !! c.1.1))
            conditions →
     ∀ time, columns df !! TIME = Some time →
     ∃ rows,
       let events :=
         (λ i, {| timestamp := loc (values time) i;
                  activity := event_name; value := NaN |}) <$> rows in
       detect_combined_condition_events df conditions event_name mode
         = Ok events
       ∧ StronglySorted lt rows
       ∧ (∀ i, i ∈ rows ↔
            Exists (λ c, condition_holds df c i) conditions
            ∧ (i = 0%nat
               ∨ ¬ Exists (λ c, condition_holds df c (i - 1)%nat) conditions))
       ∧ ∀ wd subsystem ttype,
           engine_exposes wd "detect_combined_condition_events" = false →
           rule_outcome df wd
             (combined_rule subsystem ttype conditions event_name mode)
           = Ok (Append ((λ ev, (ev, ttype)) <$> events))).
Proof.
  intros Hmode. split; [by apply combined_mode_else_branch|]. split.
  { intros σ r wd config1 config2 subsystem ttype Hwd run.
    pose proof (fold_rules_same_outcome (deref σ r) wd config1
      (combined_rule subsystem ttype conditions event_name mode)
      (combined_rule subsystem ttype conditions event_name "any")
      config2 eq_refl
      (combined_rule_outcome_any _ _ _ _ _ _ _ Hmode Hwd)) as (Hf & Hw & Hr).
    unfold run.
    destruct (dispatch_fold σ r
      (config1 ++ combined_rule subsystem ttype conditions event_name mode
                    :: config2)%list wd) as (Hf1 & Hw1 & Hr1).
    destruct (dispatch_fold σ r
      (config1 ++ combined_rule subsystem ttype conditions event_name "any"
                    :: config2)%list wd) as (Hf2 & Hw2 & Hr2).
    rewrite Hf1, Hw1, Hr1, Hf2, Hw2, Hr2. simpl in Hf, Hw, Hr.
    by rewrite Hf, Hw, Hr. }
  intros Hwf Hne Hvalid time Htime.
  destruct (mapM_condition_mask_returns df conditions Hvalid) as [masks Hmasks].
  pose proof (mapM_condition_mask df conditions masks Hmasks) as Hrel.
  destruct masks as [|m0 rest].
  { apply Forall2_nil_inv_r in Hrel. done. }
  assert (Forall (λ m, length m = nrows df) (m0 :: rest)) as Hlen.
  { clear -Hrel Hwf. induction Hrel as [|c m cs ms (f & s & _ & Hs & ->) _ IH];
      constructor; [|done].
    unfold compare. rewrite length_fmap. by eapply Hwf. }
  set (combined := foldl (zip_with orb) m0 rest).
  pose proof (foldl_or_length _ m0 rest Hlen) as Hclen. fold combined in Hclen.
  assert (∀ i, combined !! i = Some true
               ↔ Exists (λ c, condition_holds df c i) conditions) as Htrue.
  { intros i. split.
    - intros Hi. eapply masks_hold_some; [done|]. by apply foldl_or_true.
    - intros Hi. pose proof (conditions_hold_some _ _ _ i Hrel Hi) as Hex.
      assert (i < nrows df)%nat as Hlt.
      { apply Exists_exists in Hex as (m & Hm & Hmi).
        rewrite Forall_forall in Hlen. rewrite <- (Hlen m Hm).
        by eapply lookup_lt_Some. }
      destruct (foldl_or_lookup _ m0 rest i Hlen Hlt) as (b & Hb & Hiff).
      fold combined in Hb. rewrite Hb. f_equal. by apply Hiff. }
  assert (∀ i, (i < nrows df)%nat →
               combined !! i = Some false
               ↔ ¬ Exists (λ c, condition_holds df c i) conditions) as Hfalse.
  { intros i Hlt. rewrite <- Htrue.
    destruct (foldl_or_lookup _ m0 rest i Hlen Hlt) as (b & Hb & _).
    fold combined in Hb. rewrite Hb. destruct b; split; congruence. }
  assert (detect_combined_condition_events df conditions event_name mode
          = Ok ((λ i, {| timestamp := loc (values time) i;
                         activity := event_name; value := NaN |})
                  <$> mask_index (rising_edge combined))) as Hrun.
  { unfold detect_combined_condition_events. rewrite Hmasks. simpl.
    rewrite decide_False by done. simpl. unfold getitem. by rewrite Htime. }
  exists (mask_index (rising_edge combined)).
  split; [exact Hrun|]. split; [apply mask_index_sorted|]. split.
  - intros i. rewrite mask_index_elem, rising_edge_lookup, Htrue.
    split; intros [Hi Hprev]; (split; [done|]);
      (destruct Hprev as [->|Hprev]; [by left|right]);
      assert (i - 1 < nrows df)%nat
        by (apply Htrue, lookup_lt_Some in Hi; rewrite Hclen in Hi; lia);
      by apply Hfalse.
  - intros wd subsystem ttype Hwd.
    unfold rule_outcome, try_entry, simple_branch. simpl.
    assert (deref {[caller := df]} caller = df) as ->
      by (unfold deref; by rewrite lookup_singleton_eq).
    rewrite (no_missing_columns df conditions Hvalid).
    destruct wd as [w|]; simpl in Hwd; [rewrite Hwd|]; simpl;
      unfold call_detect_combined_condition_events; simpl;
      by rewrite Hrun.
Qed.

Lemma unknown_mode_is_any_witness :
  "xor" ≠ "all"
  ∧ ∃ rows,
      detect_combined_condition_events oil_table
          [("oil_psi", "<", 5); ("oil_psi", ">", 29)] "alarm" "xor"
        = Ok ((λ i, {| timestamp := loc (values (floats [0; 1; 2; 3; 4; 5])) i;
                       activity := "alarm"; value := NaN |}) <$> rows)
      ∧ StronglySorted lt rows.
Proof.
  split; [done|].
  destruct (@unknown_mode_is_any merge_sort_library oil_table
              [("oil_psi", "<", 5); ("oil_psi", ">", 29)] "alarm" "xor")
    as (_ & _ & Hrows); [done|].
  destruct (Hrows oil_table_well_formed) with (time := floats [0; 1; 2; 3; 4; 5])
    as (rows & Hrun & Hsorted & _).
  - done.
  - repeat constructor; by eexists.
  - reflexivity.
  - exists rows. split; [exact Hrun|exact Hsorted].
Defined.

(** X7: the frames, the warnings and the result of a dispatch depend on the
    store through the content of the caller's table only: two calls on
    tables with the same content, under whatever object identity and
    whatever else the stores hold, return the same log, or raise the same
    exception, with the same warnings. *)
Theorem dispatch_depends_on_table_only `{Libraries}
    (σ1 σ2 : gmap positive Table) df1 df2 config wd :
  deref σ1 df1 = deref σ2 df2 →
  (dispatch_ship_events σ1 df1 config wd).2
    = (dispatch_ship_events σ2 df2 config wd).2
  ∧ warnings (dispatch_ship_events σ1 df1 config wd).1
    = warnings (dispatch_ship_events σ2 df2 config wd).1
  ∧ frames (dispatch_ship_events σ1 df1 config wd).1
    = frames (dispatch_ship_events σ2 df2 config wd).1.
Proof.
  intros Heq.
  destruct (dispatch_fold σ1 df1 config wd) as (Hf1 & Hw1 & Hr1).
  destruct (dispatch_fold σ2 df2 config wd) as (Hf2 & Hw2 & Hr2).
  rewrite Hf1, Hw1, Hr1, Hf2, Hw2, Hr2, Heq. done.
Qed.

Lemma dispatch_depends_on_table_only_witness :
  let σ2 : gmap positive Table := {[ 7%positive := oil_table; 3%positive := blip_table ]} in
  deref oil_store caller = deref σ2 7%positive
  ∧ (@dispatch_ship_events merge_sort_library oil_store caller [low_oil_rule] None).2
    = (@dispatch_ship_events merge_sort_library σ2 7%positive [low_oil_rule] None).2.
Proof.
  assert (deref oil_store caller
          = deref ({[ 7%positive := oil_table; 3%positive := blip_table ]}
                   : gmap positive Table) 7%positive) as Heq by reflexivity.
  split; [exact Heq|].
  apply (@dispatch_depends_on_table_only merge_sort_library oil_store
           {[ 7%positive := oil_table; 3%positive := blip_table ]}
           caller 7%positive [low_oil_rule] None Heq).
Defined.

Lemma fold_rules_accounts `{Libraries} df wd config :
  Forall (λ entry, is_Some (e_subsystem entry)) config →
  (length (fold_rules df wd config).1.1 + length (fold_rules df wd config).1.2
   = length config)%nat.
Proof.
  induction 1 as [|entry config [sub Hsub] _ IH]; simpl; [done|].
  rewrite Hsub. simpl.
  destruct (fold_rules df wd config) as [[fs ws] res]. simpl in IH.
  destruct (rule_outcome df wd entry) as [[w|events]|exc]; simpl; lia.
Qed.

(** X8: when every entry has a ["subsystem"] field, each rule of the list
    leaves exactly one trace: either one frame appended or one warning
    issued.  The frames and the warnings together number the rules. *)
Theorem every_rule_accounted_for `{Libraries} σ df config wd :
  Forall (λ entry, is_Some (e_subsystem entry)) config →
  (length (frames (dispatch_ship_events σ df config wd).1)
   + length (warnings (dispatch_ship_events σ df config wd).1)
   = length config)%nat.
Proof.
  intros Hall. destruct (dispatch_fold σ df config wd) as (-> & -> & _).
  by apply fold_rules_accounts.
Qed.

Lemma every_rule_accounted_for_witness :
  Forall (λ entry, is_Some (e_subsystem entry)) [low_oil_rule; unknown_channel_rule]
  ∧ (length (frames (@dispatch_ship_events merge_sort_library oil_store caller
                       [low_oil_rule; unknown_channel_rule] None).1)
     + length (warnings (@dispatch_ship_events merge_sort_library oil_store caller
                           [low_oil_rule; unknown_channel_rule] None).1)
     = 2)%nat.
Proof.
  assert (Forall (λ entry, is_Some (e_subsystem entry))
            [low_oil_rule; unknown_channel_rule]) as Hall
    by (repeat constructor; by eexists).
  split; [exact Hall|].
  apply (@every_rule_accounted_for merge_sort_library oil_store caller
           [low_oil_rule; unknown_channel_rule] None Hall).
Defined.

Lemma fold_rules_without `{Libraries} df wd config1 entry config2 :
  is_Some (e_subsystem entry) →
  (∀ events, rule_outcome df wd entry ≠ Ok (Append events)) →
  (fold_rules df wd (config1 ++ entry :: config2)).1.1
    = (fold_rules df wd (config1 ++ config2)).1.1
  ∧ (fold_rules df wd (config1 ++ entry :: config2)).2
    = (fold_rules df wd (config1 ++ config2)).2
  ∧ (Forall (λ e, is_Some (e_subsystem e)) config1 →
     length (fold_rules df wd (config1 ++ entry :: config2)).1.2
     = S (length (fold_rules df wd (config1 ++ config2)).1.2)).
Proof.
  intros [sub Hsub] Hout. induction config1 as [|e config1 IH]; simpl.
  - rewrite Hsub. simpl.
    destruct (fold_rules df wd config2) as [[fs ws] res].
    destruct (rule_outcome df wd entry) as [[w|events]|exc]; simpl; try done.
    by destruct (Hout events).
  - destruct (e_subsystem e) as [sub'|] eqn:He; simpl.
    + destruct IH as (Hf & Hr & Hw).
      destruct (fold_rules df wd (config1 ++ entry :: config2)) as [[fs ws] res].
      destruct (fold_rules df wd (config1 ++ config2)) as [[fs' ws'] res'].
      simpl in *. subst fs' res'.
      split; [|split].
      * by destruct (rule_outcome df wd e) as [[w|events]|exc].
      * by destruct (rule_outcome df wd e) as [[w|events]|exc].
      * intros [_ Hall]%Forall_cons. specialize (Hw Hall).
        destruct (rule_outcome df wd e) as [[w|events]|exc]; simpl; lia.
    + split; [done|]. split; [done|].
      intros [[? ?] _]%Forall_cons. congruence.
Qed.

(** X9: a rule that is skipped or fails is isolated.  Inserting into a rule
    list, at any place, an entry with a subsystem whose evaluation appends
    no frame (an absent channel, a bad argument, an unknown method) leaves
    the frames and the returned log as they are without it; when the rules
    before it all have a subsystem, it adds exactly one warning. *)
Theorem failing_rule_is_isolated `{Libraries} σ df wd config1 entry config2 :
  is_Some (e_subsystem entry) →
  (∀ events, (try_entry σ df wd entry).2 ≠ Ok (Append events)) →
  let with_entry := dispatch_ship_events σ df (config1 ++ entry :: config2) wd in
  let without := dispatch_ship_events σ df (config1 ++ config2) wd in
  with_entry.2 = without.2
  ∧ frames with_entry.1 = frames without.1
  ∧ (Forall (λ e, is_Some (e_subsystem e)) config1 →
     length (warnings with_entry.1) = S (length (warnings without.1))).
Proof.
  intros Hsub Hout. rewrite rule_outcome_try_entry in Hout.
  destruct (fold_rules_without (deref σ df) wd config1 entry config2 Hsub Hout)
    as (Hf & Hr & Hw).
  cbv zeta.
  destruct (dispatch_fold σ df (config1 ++ entry :: config2) wd) as (-> & -> & ->).
  destruct (dispatch_fold σ df (config1 ++ config2) wd) as (-> & -> & ->).
  by rewrite Hf, Hr.
Qed.

Lemma failing_rule_is_isolated_witness :
  is_Some (e_subsystem unknown_channel_rule)
  ∧ (@dispatch_ship_events merge_sort_library oil_store caller
       ([low_oil_rule] ++ unknown_channel_rule :: [engine_rule]) None).2
    = (@dispatch_ship_events merge_sort_library oil_store caller
       ([low_oil_rule] ++ [engine_rule]) None).2.
Proof.
  split; [by eexists|].
  apply (@failing_rule_is_isolated merge_sort_library oil_store caller None
           [low_oil_rule] unknown_channel_rule [engine_rule]).
  - by eexists.
  - intros events. vm_compute. discriminate.
Defined.

Lemma dispatch_returns_witness :
  Forall (λ entry, is_Some (e_subsystem entry)) [unknown_channel_rule; low_oil_rule]
  ∧ Forall names_event_method [unknown_channel_rule; low_oil_rule]
  ∧ ∃ log, (@dispatch_ship_events merge_sort_library oil_store caller
              [unknown_channel_rule; low_oil_rule] None).2 = Ok log.
Proof.
  assert (Forall (λ entry, is_Some (e_subsystem entry))
            [unknown_channel_rule; low_oil_rule]) as Hall
    by (repeat constructor; by eexists).
  assert (Forall names_event_method [unknown_channel_rule; low_oil_rule])
    as Hnames.
  { apply Forall_cons; split; [|apply Forall_singleton];
      intros name [= <-]; right; left. }
  split; [exact Hall|]. split; [exact Hnames|].
  apply (@dispatch_returns merge_sort_library oil_store caller
           [unknown_channel_rule; low_oil_rule] None Hall Hnames).
Defined.

(** ** Where the records of the log come from *)

Lemma derived_branch_append_inv `{Libraries} σ df entry dc events :
  (derived_branch σ df entry dc).2 = Ok (Append events) →
  e_method entry = Some "detect_state_change_events"
  ∧ ∃ prefix raw, events = map_dropna (tmap prefix) raw.
Proof.
  unfold derived_branch. destruct dc as [[col op] val].
  destruct (negb _).
  { destruct (e_args entry); simpl; intros; simplify_eq. }
  destruct (ops op) as [f|]; [|intros; simplify_eq].
  destruct (getitem _ _) as [s|]; [|intros; simplify_eq].
  destruct (copy_shallow σ df) as [entry_df σ1].
  destruct (e_args entry) as [args0|]; simpl; [|intros; simplify_eq].
  destruct (kw_event_name_prefix args0) as [prefix|] eqn:Hprefix; simpl;
    [|intros; simplify_eq].
  destruct (e_method entry) as [name|]; simpl; [|intros; simplify_eq].
  set (tbl := deref _ _). set (args := with_column args0 _).
  assert (kw_event_name_prefix args = Some prefix) as Hargs by done.
  intros Hrun. unfold ec_getattr in Hrun.
  destruct (decide (name = "detect_threshold_events")).
  { exfalso. cbn [bind] in Hrun. unfold call_detect_threshold_events in Hrun.
    destruct (accepts_rejects_prefix
                ["column"; "threshold"; "condition"; "event_name"; "min_duration_rows"]
                args prefix Hargs) as [exc He];
      [rewrite !elem_of_cons, elem_of_nil; intuition discriminate|].
    rewrite He in Hrun. discriminate. }
  destruct (decide (name = "detect_state_change_events")) as [->|].
  { split; [done|]. cbn [bind] in Hrun.
    destruct (call_detect_state_change_events tbl args) as [raw|];
      simpl in Hrun; [|discriminate].
    exists prefix, raw. congruence. }
  destruct (decide (name = "detect_combined_condition_events")).
  { exfalso. cbn [bind] in Hrun. unfold call_detect_combined_condition_events in Hrun.
    destruct (accepts_rejects_prefix ["conditions"; "event_name"; "mode"]
                args prefix Hargs) as [exc He];
      [rewrite !elem_of_cons, elem_of_nil; intuition discriminate|].
    rewrite He in Hrun. discriminate. }
  destruct (decide (name = "detect_local_extrema_events")).
  { exfalso. cbn [bind] in Hrun. unfold call_detect_local_extrema_events in Hrun.
    destruct (accepts_rejects_prefix
                ["column"; "event_name_max"; "event_name_min"; "window_size"; "prominence"]
                args prefix Hargs) as [exc He];
      [rewrite !elem_of_cons, elem_of_nil; intuition discriminate|].
    rewrite He in Hrun. discriminate. }
  destruct (decide (name = "df")); simpl in Hrun; discriminate.
Qed.

(** X10: a derived-state rule works with one method only.  Whatever its
    other fields, a rule with a [derived_column] contributes a frame only
    if its method is [detect_state_change_events]: every other method is
    handed the keyword [event_name_prefix], which it does not take, and the
    rule ends as a warning. *)
Theorem derived_rule_needs_state_change `{Libraries} σ df entry dc events :
  (derived_branch σ df entry dc).2 = Ok (Append events) →
  e_method entry = Some "detect_state_change_events".
Proof. intros Hrun. by apply derived_branch_append_inv in Hrun as [? _]. Qed.

Lemma derived_rule_needs_state_change_witness :
  e_method low_oil_rule = Some "detect_state_change_events".
Proof.
  apply (@derived_rule_needs_state_change merge_sort_library oil_store caller
           low_oil_rule ("oil_psi", "<", 5)
           [({| timestamp := Num 3; activity := "low_oil False->True";
                value := Bool true |}, "error_activation");
            ({| timestamp := Num 5; activity := "low_oil True->False";
                value := Bool false |}, "error_recovery")]).
  vm_compute. reflexivity.
Defined.

Lemma simple_branch_append `{Libraries} df wd entry events :
  simple_branch df wd entry = Ok (Append events) →
  ∃ ttype, e_transition_type entry = Some ttype
           ∧ Forall (λ x, x.2 = ttype) events.
Proof.
  unfold simple_branch. destruct (e_args entry) as [args|]; simpl; [|done].
  set (call := let! name := entry_get "method" (e_method entry) in _).
  assert (call = Ok (Append events) →
          ∃ ttype, e_transition_type entry = Some ttype
                   ∧ Forall (λ x, x.2 = ttype) events) as Hcall.
  { unfold call. destruct (e_method entry) as [name|]; simpl; [|done].
    destruct (match wd with Some _ => _ | None => _ end) as [evs|]; simpl; [|done].
    destruct (e_transition_type entry) as [ttype|]; simpl; [|done].
    intros [= <-]. exists ttype. split; [done|].
    apply Forall_fmap. by apply Forall_true. }
  destruct (kw_conditions args) as [conditions|].
  - destruct (filter _ _); [done|]. discriminate.
  - destruct (kw_column args) as [column|]; [|done].
    destruct (negb _); [discriminate|done].
Qed.

Lemma fold_rules_frames `{Libraries} df wd config frame :
  frame ∈ (fold_rules df wd config).1.1 →
  ∃ entry sub events,
    entry ∈ config ∧ e_subsystem entry = Some sub
    ∧ rule_outcome df wd entry = Ok (Append events)
    ∧ frame = tag sub events.
Proof.
  induction config as [|entry config IH]; simpl.
  { by intros ?%elem_of_nil. }
  destruct (e_subsystem entry) as [sub|] eqn:Hsub; simpl.
  2:{ by intros ?%elem_of_nil. }
  destruct (fold_rules df wd config) as [[fs ws] res]. simpl in IH.
  assert (frame ∈ fs → ∃ entry0 sub0 events,
            entry0 ∈ entry :: config ∧ e_subsystem entry0 = Some sub0
            ∧ rule_outcome df wd entry0 = Ok (Append events)
            ∧ frame = tag sub0 events) as Hrest.
  { intros (e & s0 & evs & ? & ? & ? & ?)%IH. exists e, s0, evs.
    split; [by right|done]. }
  destruct (rule_outcome df wd entry) as [[w|events]|exc] eqn:Hout; simpl;
    [done| |done].
  intros [->|Hin]%elem_of_cons; [|by apply Hrest].
  exists entry, sub, events. split; [by left|done].
Qed.

Lemma elem_of_concat {A} (x : A) (ls : list (list A)) :
  x ∈ concat ls → ∃ l, l ∈ ls ∧ x ∈ l.
Proof.
  induction ls as [|l ls IH]; simpl.
  { by intros ?%elem_of_nil. }
  intros [Hx|Hx]%elem_of_app.
  - exists l. split; [by left|done].
  - destruct (IH Hx) as (l' & ? & ?). exists l'. split; [by right|done].
Qed.

(** X11: when every rule names a method that returns an event frame,
    every record of the returned log comes from a rule of the list: it
    carries that rule's subsystem, and its transition type is the rule's
    own [transition_type] when the rule is a simple one, and
    [error_activation] or [error_recovery] when the rule has a
    [derived_column]. *)
Theorem log_record_provenance `{Libraries} σ df config wd log r :
  Forall names_event_method config →
  (dispatch_ship_events σ df config wd).2 = Ok log →
  r ∈ log →
  ∃ entry,
    entry ∈ config
    ∧ e_subsystem entry = Some (subsystem r)
    ∧ match e_derived_column entry with
      | None => e_transition_type entry = Some (transition_type r)
      | Some _ => transition_type r = "error_activation"
                  ∨ transition_type r = "error_recovery"
      end.
Proof.
  destruct (dispatch_fold σ df config wd) as (_ & _ & ->).
  intros _ Hlog Hr.
  assert (r ∈ concat (fold_rules (deref σ df) wd config).1.1) as Hin.
  { destruct (fold_rules (deref σ df) wd config) as [[fs ws] [[]|e]];
      simpl in *; [|done].
    destruct fs as [|f fs]; simplify_eq/=.
    - by apply elem_of_nil in Hr.
    - by rewrite sort_values_Permutation in Hr. }
  apply elem_of_concat in Hin as (frame & Hframe & Hrf).
  apply fold_rules_frames in Hframe
    as (entry & sub & events & Hentry & Hsub & Hout & ->).
  exists entry. split; [done|].
  unfold tag in Hrf. apply list_elem_of_fmap in Hrf as ([ev ttype] & -> & Hev).
  split; [done|]. simpl.
  unfold rule_outcome, try_entry in Hout.
  destruct (e_derived_column entry) as [dc|].
  - apply derived_branch_append_inv in Hout as (_ & prefix & raw & ->).
    rewrite map_dropna_reclassify in Hev.
    apply list_elem_of_omap in Hev as (ev0 & _ & Hre).
    unfold reclassify in Hre. repeat case_decide; simplify_eq; auto.
  - simpl in Hout. apply simple_branch_append in Hout as (tt' & Htt & Hall).
    rewrite Forall_forall in Hall. specialize (Hall _ Hev). simpl in Hall.
    by subst.
Qed.

Lemma log_record_provenance_witness :
  let r := tagged 3 "low_oil False->True" true "error_activation" "Lubrication" in
  (@dispatch_ship_events merge_sort_library oil_store caller [low_oil_rule] None).2
    = Ok [r; tagged 5 "low_oil True->False" false "error_recovery" "Lubrication"]
  ∧ ∃ entry, entry ∈ [low_oil_rule] ∧ e_subsystem entry = Some (subsystem r).
Proof.
  split; [vm_compute; reflexivity|].
  destruct (@log_record_provenance merge_sort_library oil_store caller
              [low_oil_rule] None
              [tagged 3 "low_oil False->True" true "error_activation" "Lubrication";
               tagged 5 "low_oil True->False" false "error_recovery" "Lubrication"]
              (tagged 3 "low_oil False->True" true "error_activation" "Lubrication"))
    as (entry & Hin & Hsub & _).
  - apply Forall_singleton. intros name [= <-]. right. left.
  - vm_compute. reflexivity.
  - left.
  - exists entry. split; [exact Hin|exact Hsub].
Defined.

(** * Properties of the wavelet engine *)

(** ** Energy change points *)

Lemma count_le_length xs : (WaveletDenoiser.count xs ≤ length xs)%nat.
Proof. unfold WaveletDenoiser.count. apply length_filter. Qed.

(** A threshold whose deviation term is NaN is NaN, and nothing compares
    above it. *)
Lemma nothing_above_nan_threshold (m sigma e : float) :
  PrimFloat.ltb (PrimFloat.add m (PrimFloat.mul sigma nan)) e = false.
Proof.
  rewrite ltb_spec, add_spec, mul_spec.
  change (Prim2SF nan) with S754_nan.
  destruct (Prim2SF sigma), (Prim2SF m); reflexivity.
Qed.

(** X13: every change point returned carries the energy of a row of the
    profile, and that energy compares strictly above the float64 threshold
    [mean + threshold_sigma * std]; a profile of fewer than two samples,
    whose sample deviation is NaN, yields no record. *)
Theorem energy_events_exceed_threshold df compute_energy column event_name
    (threshold_sigma : float) events :
  (WaveletDenoiser.detect_energy_change_points df compute_energy column
     event_name threshold_sigma).2 = Ok events →
  Forall (λ ev, ∃ i,
            compute_energy column !! i = Some (WaveletDenoiser.value ev)
            ∧ PrimFloat.ltb
                (WaveletDenoiser.threshold threshold_sigma (compute_energy column))
                (WaveletDenoiser.value ev) = true) events
  ∧ ((length (compute_energy column) < 2)%nat → events = []).
Proof.
  intros Hrun.
  assert (Forall (λ ev, ∃ i,
            compute_energy column !! i = Some (WaveletDenoiser.value ev)
            ∧ PrimFloat.ltb
                (WaveletDenoiser.threshold threshold_sigma (compute_energy column))
                (WaveletDenoiser.value ev) = true) events) as Hall.
  { revert Hrun. unfold WaveletDenoiser.detect_energy_change_points.
    destruct (negb _); simpl; [intros [= <-]; constructor|].
    destruct (getitem df TIME) as [time|]; simpl; [|done]. intros [= <-].
    apply Forall_fmap, Forall_forall. intros idx Hidx. simpl.
    apply mask_index_true, rising_edge_in_mask in Hidx.
    rewrite list_lookup_fmap in Hidx.
    destruct (compute_energy column !! idx) as [e|] eqn:He; [|done].
    simpl in *. exists idx. split; [done|].
    unfold WaveletDenoiser.above in Hidx. congruence. }
  split; [done|]. intros Hshort.
  destruct events as [|ev events]; [done|].
  apply Forall_cons in Hall as [(i & _ & Hlt) _].
  unfold WaveletDenoiser.threshold, WaveletDenoiser.std in Hlt.
  pose proof (count_le_length (compute_energy column)).
  rewrite decide_True in Hlt by lia.
  by rewrite nothing_above_nan_threshold in Hlt.
Qed.

Lemma energy_events_exceed_threshold_witness :
  let energy := [1; 1; 1; 1; 1; 10]%float in
  let found := {| WaveletDenoiser.timestamp := Num 5;
                  WaveletDenoiser.activity := "energy_change";
                  WaveletDenoiser.value := 10%float |} in
  (WaveletDenoiser.detect_energy_change_points oil_table (λ _, energy)
     "oil_psi" "energy_change" 1%float).2 = Ok [found]
  ∧ Forall (λ ev, ∃ i,
              energy !! i = Some (WaveletDenoiser.value ev)
              ∧ PrimFloat.ltb (WaveletDenoiser.threshold 1%float energy)
                  (WaveletDenoiser.value ev) = true) [found].
Proof.
  intros energy found.
  assert ((WaveletDenoiser.detect_energy_change_points oil_table (λ _, energy)
             "oil_psi" "energy_change" 1%float).2 = Ok [found]) as Hrun
    by (vm_compute; reflexivity).
  split; [exact Hrun|].
  exact (proj1 (energy_events_exceed_threshold oil_table (λ _, energy)
                  "oil_psi" "energy_change" 1%float [found] Hrun)).
Defined.

(** ** Windowed energy *)

Lemma np_pad_edge_length a before after r :
  ComputeEnergy.np_pad_edge a before after = inr r →
  length r = (before + length a + after)%nat.
Proof.
  unfold ComputeEnergy.np_pad_edge. destruct a as [|x a].
  - case_decide; [|done]. intros [= <-]. simpl. lia.
  - intros [= <-]. rewrite length_app, length_replicate. simpl.
    rewrite length_app, length_replicate. lia.
Qed.

Lemma np_pad_edge_Forall (P : R → Prop) a before after r :
  Forall P a →
  ComputeEnergy.np_pad_edge a before after = inr r → Forall P r.
Proof.
  unfold ComputeEnergy.np_pad_edge. destruct a as [|x a]; intros Ha.
  { case_decide; [|done]. by intros [= <-]. }
  intros [= <-]. rewrite Forall_forall in Ha. apply Forall_forall. intros y Hy.
  assert (default x (last (x :: a)) ∈ x :: a) as Hlast.
  { destruct (last (x :: a)) as [z|] eqn:Hz; simpl; [|by left].
    apply last_Some in Hz as [l' ->]. apply elem_of_app. right. by left. }
  apply elem_of_app in Hy as [Hy|Hy].
  { apply elem_of_replicate in Hy as [-> _]. apply Ha. by left. }
  change (y ∈ ((x :: a) ++ replicate after (default x (last (x :: a))))%list) in Hy.
  apply elem_of_app in Hy as [Hy|Hy]; [by apply Ha|].
  apply elem_of_replicate in Hy as [-> _]. by apply Ha.
Qed.

Lemma upsample_length n detail u :
  ComputeEnergy.upsample n detail = inr u → length u = n.
Proof.
  unfold ComputeEnergy.upsample. case_decide; [done|].
  case_decide as Hshort.
  - intros Hpad%np_pad_edge_length. lia.
  - intros [= <-]. pose proof (length_take_le
      (ComputeEnergy.np_repeat detail (1 `max` (n / length detail))) n). 
    rewrite length_take in *. lia.
Qed.

Lemma cumsum_from_length acc xs :
  length (ComputeEnergy.cumsum_from acc xs) = length xs.
Proof.
  revert acc. induction xs as [|x xs IH]; intros acc; simpl; [done|].
  by rewrite IH.
Qed.

Lemma windowed_mean_length win squared :
  length (ComputeEnergy.windowed_mean win squared)
    = (S (length squared) - win)%nat.
Proof.
  unfold ComputeEnergy.windowed_mean, ComputeEnergy.cumsum.
  rewrite length_zip_with, length_drop, length_take, cumsum_from_length.
  simpl. lia.
Qed.

Lemma resolve_window_pos window level :
  (0 < ComputeEnergy.resolve_window window level)%nat.
Proof.
  unfold ComputeEnergy.resolve_window.
  assert (0 < 2 ^ level)%nat by (apply Nat.neq_0_lt_0, Nat.pow_nonzero; lia).
  destruct window as [[|w]|]; lia.
Qed.

Lemma level_energy_length n win detail w :
  (0 < win)%nat →
  ComputeEnergy.level_energy n win detail = inr w → length w = n.
Proof.
  intros Hwin. unfold ComputeEnergy.level_energy.
  destruct (ComputeEnergy.upsample n detail) as [e|u] eqn:Hu; [done|].
  apply upsample_length in Hu.
  intros Hpad%np_pad_edge_length. revert Hpad.
  rewrite windowed_mean_length, length_fmap, Hu.
  intros ->.
  assert ((n - (S n - win)) / 2 ≤ n - (S n - win))%nat
    by (apply Nat.Div0.div_le_upper_bound; lia).
  lia.
Qed.

(** Prefix sums of non-negative numbers do not decrease. *)
Lemma cumsum_from_lower acc xs :
  Forall (λ x, (0 <= x)%R) xs →
  Forall (λ y, (acc <= y)%R) (ComputeEnergy.cumsum_from acc xs).
Proof.
  intros Hxs. revert acc. induction Hxs as [|x xs Hx _ IH]; intros acc; simpl;
    constructor; [lra|].
  eapply Forall_impl; [apply IH|]. simpl. intros y Hy. lra.
Qed.

Lemma cumsum_from_monotone acc xs i j a b :
  Forall (λ x, (0 <= x)%R) xs →
  (i ≤ j)%nat →
  ComputeEnergy.cumsum_from acc xs !! i = Some a →
  ComputeEnergy.cumsum_from acc xs !! j = Some b →
  (a <= b)%R.
Proof.
  intros Hxs. revert acc i j.
  induction Hxs as [|x xs Hx Hxs IH]; intros acc i j Hij; simpl; [done|].
  destruct i as [|i], j as [|j]; simpl; try lia.
  - intros [= <-] [= <-]. lra.
  - intros [= <-] Hb.
    pose proof (cumsum_from_lower (acc + x) xs Hxs) as Hlow.
    rewrite Forall_forall in Hlow. apply Hlow.
    by eapply list_elem_of_lookup_2.
  - apply IH. lia.
Qed.

Lemma windowed_mean_nonneg win squared :
  (0 < win)%nat →
  Forall (λ x, (0 <= x)%R) squared →
  Forall (λ x, (0 <= x)%R) (ComputeEnergy.windowed_mean win squared).
Proof.
  intros Hwin Hsq. apply Forall_lookup. intros i w.
  unfold ComputeEnergy.windowed_mean, ComputeEnergy.cumsum.
  rewrite lookup_zip_with, lookup_drop.
  destruct (ComputeEnergy.cumsum_from 0 (0%R :: squared) !! (win + i)%nat)
    as [hi|] eqn:Hhi; simpl; [|done].
  destruct (take _ _ !! i) as [lo|] eqn:Hlo; simpl; [|done].
  intros [= <-]. apply lookup_take_Some in Hlo as [Hlo _].
  assert (lo <= hi)%R.
  { eapply (cumsum_from_monotone 0 (0%R :: squared) i (win + i)); try done.
    - constructor; [lra|done].
    - lia. }
  unfold Rdiv. apply Rmult_le_pos; [lra|].
  left. apply Rinv_0_lt_compat, lt_0_INR. lia.
Qed.

Lemma level_energy_nonneg n win detail w :
  (0 < win)%nat →
  ComputeEnergy.level_energy n win detail = inr w →
  Forall (λ x, (0 <= x)%R) w.
Proof.
  intros Hwin. unfold ComputeEnergy.level_energy.
  destruct (ComputeEnergy.upsample n detail) as [e|u]; [done|].
  apply np_pad_edge_Forall, windowed_mean_nonneg; [done|].
  apply Forall_fmap, Forall_true. intros x. simpl. nra.
Qed.

Lemma accumulate_shape n win energy details result :
  (0 < win)%nat →
  length energy = n →
  Forall (λ x, (0 <= x)%R) energy →
  ComputeEnergy.accumulate n win energy details = inr result →
  length result = n ∧ Forall (λ x, (0 <= x)%R) result.
Proof.
  intros Hwin. revert energy.
  induction details as [|detail details IH]; intros energy Hlen Hpos; simpl.
  { by intros [= <-]. }
  destruct (ComputeEnergy.level_energy n win detail) as [e|w] eqn:Hw; [done|].
  pose proof (level_energy_length _ _ _ _ Hwin Hw) as Hwlen.
  pose proof (level_energy_nonneg _ _ _ _ Hwin Hw) as Hwpos.
  apply IH.
  - rewrite length_zip_with. lia.
  - apply Forall_lookup. intros i x. rewrite lookup_zip_with.
    destruct (energy !! i) as [a|] eqn:Ha; simpl; [|done].
    destruct (w !! i) as [b|] eqn:Hb; simpl; [|done]. intros [= <-].
    rewrite Forall_lookup in Hpos, Hwpos.
    specialize (Hpos _ _ Ha). specialize (Hwpos _ _ Hb). simpl in *. lra.
Qed.

(** X14: when [compute_energy] returns, the energy profile has one value
    per sample and no value is negative. *)
Theorem energy_profile_shape n details self_level dwt_max_level window energy :
  ComputeEnergy.compute_energy n details self_level dwt_max_level window
    = inr energy →
  length energy = n ∧ Forall (λ x, (0 <= x)%R) energy.
Proof.
  unfold ComputeEnergy.compute_energy.
  apply accumulate_shape.
  - apply resolve_window_pos.
  - apply length_replicate.
  - apply Forall_replicate. lra.
Qed.

Lemma energy_profile_shape_witness :
  ∃ energy,
    ComputeEnergy.compute_energy 4 [[1; 2]%R] (Some 1%nat) 0 None = inr energy
    ∧ length energy = 4%nat.
Proof.
  destruct (ComputeEnergy.compute_energy 4 [[1; 2]%R] (Some 1%nat) 0 None)
    as [e|energy] eqn:Hrun.
  - exfalso. revert Hrun. cbn. discriminate.
  - exists energy. split; [reflexivity|].
    apply (energy_profile_shape 4 [[1; 2]%R] (Some 1%nat) 0%nat None energy Hrun).
Defined.

Lemma upsample_returns n detail :
  (0 < n)%nat → detail ≠ [] →
  ∃ u, ComputeEnergy.upsample n detail = inr u ∧ length u = n.
Proof.
  intros Hn Hd.
  destruct (ComputeEnergy.upsample n detail) as [e|u] eqn:Hu.
  - exfalso. revert Hu. unfold ComputeEnergy.upsample.
    destruct detail as [|x detail]; [done|].
    rewrite decide_False by (simpl; lia).
    set (r := (1 `max` (n / length (x :: detail)))%nat).
    assert (∃ r', r = S r') as [r' ->] by (exists (r - 1)%nat; lia).
    destruct n as [|n']; [lia|].
    unfold ComputeEnergy.np_repeat. simpl.
    case_decide; done.
  - exists u. split; [done|]. by eapply upsample_length.
Qed.

(** X15: a series shorter than the window cannot be analysed.  With at
    least one sample, fewer samples than the window (by default [2**level])
    and a first level with coefficients, [compute_energy] raises the
    [ValueError] of padding an empty array. *)
Theorem window_longer_than_series_raises n detail details self_level
    dwt_max_level window :
  (0 < n)%nat →
  (n < ComputeEnergy.resolve_window window
         (ComputeEnergy.resolve_level self_level dwt_max_level))%nat →
  detail ≠ [] →
  ComputeEnergy.compute_energy n (detail :: details) self_level dwt_max_level
      window
    = inl ComputeEnergy.PadEmptyValueError.
Proof.
  intros Hn Hwin Hd. unfold ComputeEnergy.compute_energy. simpl.
  unfold ComputeEnergy.level_energy.
  destruct (upsample_returns n detail Hn Hd) as (u & -> & Hu).
  pose proof (windowed_mean_length
    (ComputeEnergy.resolve_window window
       (ComputeEnergy.resolve_level self_level dwt_max_level))
    ((λ x, (x * x)%R) <$> u)) as Hlen.
  rewrite length_fmap, Hu in Hlen.
  destruct (ComputeEnergy.windowed_mean _ _) as [|w ws]; simpl in Hlen; [|lia].
  simpl. rewrite Nat.sub_0_r. rewrite decide_False; [done|].
  assert (n / 2 ≤ n)%nat by (apply Nat.Div0.div_le_upper_bound; lia). lia.
Qed.

Lemma window_longer_than_series_raises_witness :
  (0 < 3)%nat
  ∧ (3 < ComputeEnergy.resolve_window None
           (ComputeEnergy.resolve_level (Some 4%nat) 0))%nat
  ∧ ComputeEnergy.compute_energy 3 [[1; 2]%R] (Some 4%nat) 0 None
    = inl ComputeEnergy.PadEmptyValueError.
Proof.
  split; [lia|]. split; [simpl; lia|].
  apply (window_longer_than_series_raises 3 [1; 2]%R [] (Some 4%nat) 0%nat None).
  - lia.
  - simpl. lia.
  - done.
Defined.

Lemma level_energy_full_window n detail w :
  (0 < n)%nat →
  ComputeEnergy.level_energy n n detail = inr w → ∃ v, w = replicate n v.
Proof.
  intros Hn. unfold ComputeEnergy.level_energy.
  destruct (ComputeEnergy.upsample n detail) as [e|u] eqn:Hu; [done|].
  apply upsample_length in Hu.
  pose proof (windowed_mean_length n ((λ x, (x * x)%R) <$> u)) as Hlen.
  rewrite length_fmap, Hu in Hlen.
  destruct (ComputeEnergy.windowed_mean _ _) as [|v [|v' ws]];
    simpl in Hlen; try lia.
  unfold ComputeEnergy.np_pad_edge. intros [= <-]. exists v.
  change (length [v]) with 1%nat. change (default v (last [v])) with v.
  set (pad := (n - 1)%nat).
  assert (pad / 2 ≤ pad)%nat by (apply Nat.Div0.div_le_upper_bound; lia).
  transitivity (replicate (pad / 2 + S (pad - pad / 2)) v).
  - by rewrite replicate_add.
  - f_equal. lia.
Qed.

Lemma accumulate_full_window n c details energy :
  (0 < n)%nat →
  ComputeEnergy.accumulate n n (replicate n c) details = inr energy →
  ∃ c', energy = replicate n c'.
Proof.
  intros Hn. revert c. induction details as [|detail details IH]; intros c; simpl.
  { intros [= <-]. by exists c. }
  destruct (ComputeEnergy.level_energy n n detail) as [e|w] eqn:Hw; [done|].
  apply level_energy_full_window in Hw as [v ->]; [|done].
  rewrite zip_with_replicate. apply IH.
Qed.

(** X16: when the series has exactly as many samples as the window (by
    default [2**level]), each level contributes a single window mean
    padded to full length, so the energy profile is one value repeated. *)
Theorem full_window_profile_is_flat n details self_level dwt_max_level window
    energy :
  n = ComputeEnergy.resolve_window window
        (ComputeEnergy.resolve_level self_level dwt_max_level) →
  ComputeEnergy.compute_energy n details self_level dwt_max_level window
    = inr energy →
  ∃ c, energy = replicate n c.
Proof.
  intros Hn Hrun. unfold ComputeEnergy.compute_energy in Hrun.
  rewrite <- Hn in Hrun.
  assert (0 < n)%nat as Hpos by (rewrite Hn; apply resolve_window_pos).
  apply accumulate_full_window in Hrun as [c ->]; [|done].
  by exists c.
Qed.

Lemma full_window_profile_is_flat_witness :
  2%nat = ComputeEnergy.resolve_window None
            (ComputeEnergy.resolve_level (Some 1%nat) 0)
  ∧ ∃ energy c,
      ComputeEnergy.compute_energy 2 [[3]%R] (Some 1%nat) 0 None = inr energy
      ∧ energy = replicate 2 c.
Proof.
  split; [reflexivity|].
  destruct (ComputeEnergy.compute_energy 2 [[3]%R] (Some 1%nat) 0 None)
    as [e|energy] eqn:Hrun.
  - exfalso. revert Hrun. cbn. discriminate.
  - destruct (full_window_profile_is_flat 2 [[3]%R] (Some 1%nat) 0%nat None
                energy eq_refl Hrun) as [c Hc].
    exists energy, c. split; [reflexivity|exact Hc].
Defined.

(** * Derived-state rules and threshold crossings *)

Lemma activation_timestamps_app l1 l2 :
  activation_timestamps (l1 ++ l2)
    = (activation_timestamps l1 ++ activation_timestamps l2)%list.
Proof. unfold activation_timestamps. by rewrite filter_app, fmap_app. Qed.

(** After the first row, the activations of the boolean series of a
    condition are the rising edges of that condition. *)
Lemma activations_are_rising_edges f thr time prefix event_name ignore_nan
    col k p :
  (0 < k)%nat →
  activation_timestamps
    (omap (reclassify prefix)
       (transitions (is_change ignore_nan) (transition_event time prefix true)
          k (Bool (compare_cell f thr p)) (Bool <$> (compare_cell f thr <$> col))))
  = timestamp <$>
      transitions (is_rising f thr)
        (λ k _ c, {| timestamp := loc time k; activity := event_name; value := c |})
        k p col.
Proof.
  revert k p. induction col as [|c col IH]; intros k p Hk; [done|].
  rewrite !fmap_cons. cbn [transitions].
  rewrite omap_app, activation_timestamps_app, fmap_app, (IH (S k) c) by lia.
  f_equal.
  assert (is_change ignore_nan (Bool (compare_cell f thr c))
            (Bool (compare_cell f thr p))
          = negb (bool_decide (compare_cell f thr p = compare_cell f thr c))) as ->.
  { by destruct ignore_nan, (compare_cell f thr p), (compare_cell f thr c). }
  unfold is_rising.
  destruct (decide (compare_cell f thr p = compare_cell f thr c)) as [Heq|Hne].
  - rewrite bool_decide_eq_true_2 by done. rewrite Heq.
    by destruct (compare_cell f thr c).
  - rewrite bool_decide_eq_false_2 by done. cbn [negb omap list_omap].
    rewrite reclassify_bool_transition by done.
    destruct (compare_cell f thr p), (compare_cell f thr c); done.
Qed.

Lemma derived_column_is_not_time prefix : "_derived_" +:+ prefix ≠ TIME.
Proof. done. Qed.

Lemma derived_branch_walk `{Libraries} σ df entry col op val events :
  (derived_branch σ df entry (col, op, val)).2 = Ok (Append events) →
  ∃ f s prefix ignore_nan,
    ops op = Some f ∧ columns (deref σ df) !! col = Some s
    ∧ events = omap (reclassify prefix)
        (transitions (is_change ignore_nan)
           (transition_event (time_values (deref σ df)) prefix true)
           0 NaN (Bool <$> compare f s val)).
Proof.
  intros Hrun.
  destruct (derived_branch_append_inv _ _ _ _ _ Hrun) as [Hmethod _].
  revert Hrun. unfold derived_branch.
  destruct (negb _).
  { destruct (e_args entry); simpl; intros; simplify_eq. }
  destruct (ops op) as [f|]; [|intros; simplify_eq].
  unfold getitem at 1.
  destruct (columns (deref σ df) !! col) as [s|] eqn:Hs; [|intros; simplify_eq].
  pose proof (deref_setitem_copy σ df) as Hderef.
  destruct (copy_shallow σ df) as [entry_df σ1]. simpl in Hderef.
  destruct (e_args entry) as [args0|]; simpl; [|intros; simplify_eq].
  destruct (kw_event_name_prefix args0) as [prefix|] eqn:Hprefix; simpl;
    [|intros; simplify_eq].
  rewrite Hderef, Hmethod. simpl.
  unfold call_detect_state_change_events.
  destruct (accepts _ _); simpl; [|done].
  rewrite Hprefix. simpl.
  set (tbl := {| nrows := _; columns := _ |}).
  rewrite (state_change_events_walk tbl _ prefix _ (BoolSeries (compare f s val)))
    by (subst tbl; simpl; apply lookup_insert_eq).
  assert (time_values tbl = time_values (deref σ df)) as ->.
  { unfold time_values. subst tbl. simpl.
    by rewrite lookup_insert_ne by apply derived_column_is_not_time. }
  simpl. intros Hrun.
  exists f, s, prefix, (default true (kw_ignore_nan args0)).
  split; [done|]. split; [done|].
  rewrite <- map_dropna_reclassify.
  destruct (decide _) as [Hnil|_] in Hrun.
  - rewrite Hnil. simpl in Hrun. by injection Hrun as <-.
  - destruct (getitem tbl TIME); simpl in Hrun; congruence.
Qed.

(** X12: the activations of a derived-state rule are the threshold
    crossings of its condition.  When a rule with
    [derived_column = (col, op, val)] contributes a frame and
    threshold-crossing detection of the same condition on the same table
    returns, the crossings' timestamps are the timestamps of the rule's
    activation records, preceded by the first row's timestamp when the
    condition already holds there: a crossing at the first row is the one
    threshold event that the rule does not report. *)
Theorem activations_are_threshold_crossings `{Libraries} σ df entry col op val
    events event_name crossings :
  (derived_branch σ df entry (col, op, val)).2 = Ok (Append events) →
  detect_threshold_events (deref σ df) col val op event_name 1 = Ok crossings →
  ∃ first,
    timestamp <$> crossings = (first ++ activation_timestamps events)%list
    ∧ (first = [] ∨ first = [loc (time_values (deref σ df)) 0]).
Proof.
  intros (f & s & prefix & ign & Hop & Hs & ->)%derived_branch_walk.
  unfold detect_threshold_events. rewrite Hop. unfold getitem at 1. rewrite Hs.
  simpl. unfold getitem, time_values.
  destruct (columns (deref σ df) !! TIME) as [time|]; simpl; [|done].
  intros [= <-]. unfold compare, mask_index. rewrite rising_edge_walk.
  rewrite (mask_index_transitions (is_rising f val)
             (λ k _ c, {| timestamp := loc (values time) k;
                          activity := event_name; value := c |}))
    by (intros j c Hj; simpl; unfold loc; by rewrite Hj).
  destruct (values s) as [|c rest].
  { exists []. by split; [|left]. }
  rewrite !fmap_cons. cbn [transitions].
  rewrite omap_app, activation_timestamps_app, fmap_app.
  assert (omap (reclassify prefix)
            (if is_change ign (Bool (compare_cell f val c)) NaN
             then [transition_event (values time) prefix true 0 NaN
                     (Bool (compare_cell f val c))] else [])
          = []) as ->.
  { destruct (is_change _ _ _); [|done].
    cbn [omap list_omap]. by rewrite reclassify_start. }
  rewrite (activations_are_rising_edges f val (values time) prefix event_name
             ign rest 1 c) by lia.
  eexists. split; [reflexivity|].
  unfold is_rising. simpl. destruct (compare_cell f val c); simpl; auto.
Qed.

Lemma activations_are_threshold_crossings_witness :
  let events :=
    [({| timestamp := Num 3; activity := "low_oil False->True"; value := Bool true |},
      "error_activation");
     ({| timestamp := Num 5; activity := "low_oil True->False"; value := Bool false |},
      "error_recovery")] in
  (@derived_branch merge_sort_library oil_store caller low_oil_rule
     ("oil_psi", "<", 5)).2 = Ok (Append events)
  ∧ detect_threshold_events (deref oil_store caller) "oil_psi" 5 "<" "low" 1
    = Ok [{| timestamp := Num 3; activity := "low"; value := Num 4 |}]
  ∧ ∃ first, [Num 3] = (first ++ activation_timestamps events)%list.
Proof.
  split; [vm_compute; reflexivity|]. split; [vm_compute; reflexivity|].
  destruct (@activations_are_threshold_crossings merge_sort_library oil_store
              caller low_oil_rule "oil_psi" "<" 5
              [({| timestamp := Num 3; activity := "low_oil False->True";
                   value := Bool true |}, "error_activation");
               ({| timestamp := Num 5; activity := "low_oil True->False";
                   value := Bool false |}, "error_recovery")]
              "low"
              [{| timestamp := Num 3; activity := "low"; value := Num 4 |}])
    as (first & Hfirst & _).
  - vm_compute. reflexivity.
  - vm_compute. reflexivity.
  - exists first. exact Hfirst.
Defined.
